(** * STM Shell demo PFS: the command functions and command blocks of
      [shell_pfs.c], embedded as Rocq functions over an explicit machine state.

    The C file keeps everything it knows in globals ([shell_state],
    [shell_fp]) and in function-local [static] variables.  Here they are
    fields of one record, [world], and every command function is a function
    [world -> world]: one call of the C function, one tick. *)

From Stdlib Require Import ZArith List String Ascii Bool Lia.
From Stdlib Require Import DecimalString DecimalPos DecimalZ.
Import ListNotations.
Local Open Scope Z_scope.

(** ** Machine integers *)

Module Int.

Definition INT_MIN : Z := -2147483648.
Definition INT_MAX : Z := 2147483647.

(** two's complement wrap-around of a [w]-bit signed integer *)
Definition wrap_bits (w : Z) (z : Z) : Z :=
  (z + 2 ^ (w - 1)) mod 2 ^ w - 2 ^ (w - 1).

(** [int] and [long] are 32 bits wide on the target, [long long] 64 *)
Definition wrap (z : Z) : Z := wrap_bits 32 z.
Definition wrap64 (z : Z) : Z := wrap_bits 64 z.

Definition in_range (z : Z) : Prop := INT_MIN <= z <= INT_MAX.

(** [x++], [x--] and [x * y] on [int] *)
Definition incr (x : Z) : Z := wrap (x + 1).
Definition decr (x : Z) : Z := wrap (x - 1).
Definition mul (x y : Z) : Z := wrap (x * y).

(** what [strtol] does with a value that does not fit *)
Definition clamp (z : Z) : Z := Z.max INT_MIN (Z.min INT_MAX z).

End Int.

(** ** The C library: [sscanf] with the format ["flash %i"], [sprintf] with [%i] *)

Module Libc.

Definition EOF : Z := -1.

Definition isspace (c : ascii) : bool :=
  let n := N_of_ascii c in ((9 <=? n) && (n <=? 13) || (n =? 32))%N.

Fixpoint skip_space (s : string) : string :=
  match s with
  | String c rest => if isspace c then skip_space rest else s
  | EmptyString => s
  end.

(** value of a digit, letters counting from ten as [strtol] has them *)
Definition digit_value (c : ascii) : option Z :=
  let n := Z.of_N (N_of_ascii c) in
  if (48 <=? n) && (n <=? 57) then Some (n - 48)
  else if (97 <=? n) && (n <=? 122) then Some (n - 97 + 10)
  else if (65 <=? n) && (n <=? 90) then Some (n - 65 + 10)
  else None.

(** the longest run of digits of [base] at the head of [s], accumulated
    onto [acc]; also tells whether there was any digit *)
Fixpoint digits (base : Z) (acc : Z) (seen : bool) (s : string) : Z * bool :=
  match s with
  | String c rest =>
      match digit_value c with
      | Some d => if d <? base then digits base (acc * base + d) true rest
                  else (acc, seen)
      | None => (acc, seen)
      end
  | EmptyString => (acc, seen)
  end.

(** the outcome of one [%i] directive *)
Inductive conversion : Type :=
| input_failure            (* the input ended before the directive *)
| matching_failure         (* what is there is not an integer *)
| converted (v : Z).

(** the unsigned part: prefix [0x] or [0X] for base sixteen, [0] for base
    eight, base ten otherwise *)
Definition scan_magnitude (s : string) : option Z :=
  match s with
  | String "0"%char (String x rest) =>
      if (Ascii.eqb x "x"%char || Ascii.eqb x "X"%char)%bool then
        match digits 16 0 false rest with
        | (v, true) => Some v
        | (_, false) => None
        end
      else Some (fst (digits 8 0 true (String x rest)))
  | _ =>
      match digits 10 0 false s with
      | (v, true) => Some v
      | (_, false) => None
      end
  end.

(** [%i]: leading white space is skipped, then an optional sign, then the
    magnitude; the value is stored in an [int] as [strtol] delivers it *)
Definition scan_i (s : string) : conversion :=
  match skip_space s with
  | EmptyString => input_failure
  | String c rest =>
      let '(negative, body) :=
        if Ascii.eqb c "-"%char then (true, rest)
        else if Ascii.eqb c "+"%char then (false, rest)
        else (false, String c rest) in
      match scan_magnitude body with
      | Some v => converted (Int.clamp (if negative then - v else v))
      | None => matching_failure
      end
  end.

(** an ordinary character of the format must be the next input character *)
Fixpoint scan_literal (lit s : string) : option (option string) :=
  match lit with
  | EmptyString => Some (Some s)
  | String l lit' =>
      match s with
      | EmptyString => Some None               (* input failure *)
      | String c rest =>
          if Ascii.eqb c l then scan_literal lit' rest
          else None                            (* matching failure *)
      end
  end.

(** [rv = sscanf (input, "flash %i", &arg)]: the pair of [rv] and of the
    content of [arg] after the call, [arg] being its content before.
    [rv] is the number of conversions stored, or [EOF] when the input ends
    before the first one. *)
Definition sscanf_flash (input : string) (arg : Z) : Z * Z :=
  match scan_literal "flash" input with
  | None => (0, arg)
  | Some None => (EOF, arg)
  | Some (Some rest) =>
      (* the blank of the format matches white space, also none;
         [scan_i] skips it *)
      match scan_i (skip_space rest) with
      | converted v => (1, v)
      | matching_failure => (0, arg)
      | input_failure => (EOF, arg)
      end
  end.

(** [%i] of [sprintf] *)
Definition fmt_i (z : Z) : string := NilZero.string_of_int (Z.to_int z).

Definition CR : ascii := ascii_of_nat 13.
Definition LF : ascii := ascii_of_nat 10.
Definition CRLF : string := String CR (String LF EmptyString).

End Libc.

(** ** Function pointers, the shell state, the statics *)

(** the four command functions of this file *)
Inductive command : Type :=
| cmd_cnt
| cmd_led_toggle
| cmd_load
| cmd_flash.

(** what [shell_fp] can hold: [shell_state_output], or another function of
    the shell, told apart by a number.  [shell_state.command_fp] holds a
    command function or 0, which is [None]. *)
Inductive fn_ptr : Type :=
| shell_state_output
| shell_fn (id : positive).

(** the fields of [shell_state] that this file reads and writes *)
Record t_shell_state : Type := {
  input : string;
  output : string;
  busy : Z;
  command_fp : option command
}.

(** [static] variables of [command_cnt] *)
Record cnt_statics : Type := { cnt_state : Z; cnt_cnt : Z }.
(** [static] variables of [command_load] *)
Record load_statics : Type := { load_state : Z; load_cnt : Z; load_accu : Z }.
(** [static] variables of [command_flash] *)
Record flash_statics : Type := { flash_state : Z; flash_arg : Z; flash_delay : Z }.

(** the HAL calls made on the LED pin, oldest first *)
Inductive GPIO_PinState : Type := GPIO_PIN_RESET | GPIO_PIN_SET.

Inductive hal_call : Type :=
| WritePin (s : GPIO_PinState)
| TogglePin.

Record gpio : Type := { led_pin : GPIO_PinState; hal_log : list hal_call }.

Record world : Type := {
  shell_state : t_shell_state;
  shell_fp : fn_ptr;
  cnt_vars : cnt_statics;
  load_vars : load_statics;
  flash_vars : flash_statics;
  led : gpio
}.

(** *** Assignments *)

Definition set_output (s : string) (w : world) : world :=
  {| shell_state := {| input := input (shell_state w); output := s;
                       busy := busy (shell_state w);
                       command_fp := command_fp (shell_state w) |};
     shell_fp := shell_fp w; cnt_vars := cnt_vars w; load_vars := load_vars w;
     flash_vars := flash_vars w; led := led w |}.

Definition set_command_fp (p : option command) (w : world) : world :=
  {| shell_state := {| input := input (shell_state w);
                       output := output (shell_state w);
                       busy := busy (shell_state w); command_fp := p |};
     shell_fp := shell_fp w; cnt_vars := cnt_vars w; load_vars := load_vars w;
     flash_vars := flash_vars w; led := led w |}.

Definition set_shell_fp (p : fn_ptr) (w : world) : world :=
  {| shell_state := shell_state w; shell_fp := p; cnt_vars := cnt_vars w;
     load_vars := load_vars w; flash_vars := flash_vars w; led := led w |}.

Definition set_cnt_vars (v : cnt_statics) (w : world) : world :=
  {| shell_state := shell_state w; shell_fp := shell_fp w; cnt_vars := v;
     load_vars := load_vars w; flash_vars := flash_vars w; led := led w |}.

Definition set_load_vars (v : load_statics) (w : world) : world :=
  {| shell_state := shell_state w; shell_fp := shell_fp w;
     cnt_vars := cnt_vars w; load_vars := v; flash_vars := flash_vars w;
     led := led w |}.

Definition set_flash_vars (v : flash_statics) (w : world) : world :=
  {| shell_state := shell_state w; shell_fp := shell_fp w;
     cnt_vars := cnt_vars w; load_vars := load_vars w; flash_vars := v;
     led := led w |}.

Definition set_led (g : gpio) (w : world) : world :=
  {| shell_state := shell_state w; shell_fp := shell_fp w;
     cnt_vars := cnt_vars w; load_vars := load_vars w;
     flash_vars := flash_vars w; led := g |}.

(** ** The HAL and the macros of the file *)

Definition HAL_GPIO_WritePin (s : GPIO_PinState) (w : world) : world :=
  set_led {| led_pin := s; hal_log := hal_log (led w) ++ [WritePin s] |} w.

Definition HAL_GPIO_TogglePin (w : world) : world :=
  set_led {| led_pin := match led_pin (led w) with
                        | GPIO_PIN_RESET => GPIO_PIN_SET
                        | GPIO_PIN_SET => GPIO_PIN_RESET
                        end;
             hal_log := hal_log (led w) ++ [TogglePin] |} w.

(** [#define LED(a) HAL_GPIO_WritePin (.., ((a) == 1) ? GPIO_PIN_SET : GPIO_PIN_RESET)] *)
Definition LED (a : Z) (w : world) : world :=
  HAL_GPIO_WritePin (if a =? 1 then GPIO_PIN_SET else GPIO_PIN_RESET) w.

(** [#define DONE shell_fp = shell_state_output; shell_state.command_fp = 0;] *)
Definition DONE (w : world) : world :=
  set_command_fp None (set_shell_fp shell_state_output w).

(** *** Assignments to the statics, one variable at a time *)

Definition set_cnt_state (z : Z) (w : world) : world :=
  set_cnt_vars {| cnt_state := z; cnt_cnt := cnt_cnt (cnt_vars w) |} w.
Definition set_cnt_cnt (z : Z) (w : world) : world :=
  set_cnt_vars {| cnt_state := cnt_state (cnt_vars w); cnt_cnt := z |} w.

Definition set_load_state (z : Z) (w : world) : world :=
  set_load_vars {| load_state := z; load_cnt := load_cnt (load_vars w);
                   load_accu := load_accu (load_vars w) |} w.
Definition set_load_cnt (z : Z) (w : world) : world :=
  set_load_vars {| load_state := load_state (load_vars w); load_cnt := z;
                   load_accu := load_accu (load_vars w) |} w.
Definition set_load_accu (z : Z) (w : world) : world :=
  set_load_vars {| load_state := load_state (load_vars w);
                   load_cnt := load_cnt (load_vars w); load_accu := z |} w.

Definition set_flash_state (z : Z) (w : world) : world :=
  set_flash_vars {| flash_state := z; flash_arg := flash_arg (flash_vars w);
                    flash_delay := flash_delay (flash_vars w) |} w.
Definition set_flash_arg (z : Z) (w : world) : world :=
  set_flash_vars {| flash_state := flash_state (flash_vars w); flash_arg := z;
                    flash_delay := flash_delay (flash_vars w) |} w.
Definition set_flash_delay (z : Z) (w : world) : world :=
  set_flash_vars {| flash_state := flash_state (flash_vars w);
                    flash_arg := flash_arg (flash_vars w); flash_delay := z |} w.

(** [#define RETURN state = 0; shell_fp = shell_state_output; shell_state.command_fp = 0;]
    where [state] is the static of the function the macro is used in *)
Definition RETURN (set_state : Z -> world -> world) (w : world) : world :=
  set_command_fp None (set_shell_fp shell_state_output (set_state 0 w)).

(** statements in sequence, in the order the C text has them *)
Notation "w '|>' f" := (f w) (at level 45, left associativity, only parsing).

(** ** Command functions

    [STATE_MACHINE] opens [switch (state) {] on a static [state] that starts
    at 0, and [STATE n:] is [break; case n:], so no state falls through into
    the next and a value of [state] without a case leaves everything as it is. *)

(** ["\r\nCalled %i times"] *)
Definition called_times (cnt : Z) : string :=
  (Libc.CRLF ++ "Called " ++ Libc.fmt_i cnt ++ " times")%string.

Definition command_cnt (w : world) : world :=
  match cnt_state (cnt_vars w) with
  | 0 =>
      w |> set_output (called_times (cnt_cnt (cnt_vars w)))
        |> set_shell_fp shell_state_output
        |> set_cnt_state 1
  | 1 =>
      w |> set_cnt_cnt (Int.incr (cnt_cnt (cnt_vars w)))
        |> RETURN set_cnt_state
  | _ => w
  end.

Definition command_led_toggle (w : world) : world :=
  w |> HAL_GPIO_TogglePin
    |> set_shell_fp shell_state_output
    |> set_command_fp None.

(** ["\r\nValues : %i %li"] *)
Definition values_line (cnt : Z) (l : Z) : string :=
  (Libc.CRLF ++ "Values : " ++ Libc.fmt_i cnt ++ " " ++ Libc.fmt_i l)%string.

(** [for (k = 0; k < 10000; k++) accu += k * cnt;] from the value [k] on;
    the loop runs 10000 times at most, which [n] counts *)
Fixpoint load_loop (n : nat) (k cnt accu : Z) : Z :=
  match n with
  | O => accu
  | S n' =>
      if k <? 10000
      then load_loop n' (Int.incr k) cnt (Int.wrap64 (accu + Int.mul k cnt))
      else accu
  end.

Definition command_load (w : world) : world :=
  let v := load_vars w in
  match load_state v with
  | 0 =>
      if busy (shell_state w) =? 0 then set_load_state 1 w else w
  | 1 =>
      w |> set_output (values_line (load_cnt v)
                         (Int.wrap (Z.quot (load_accu v) 10000)))
        |> set_load_cnt (Int.incr (load_cnt v))
        |> set_shell_fp shell_state_output
        |> set_load_state 2
  | 2 =>
      let w := set_load_state 0 w in
      if load_cnt v =? 500 then
        w |> set_load_cnt 0
          |> set_shell_fp shell_state_output
          |> set_command_fp None
      else
        set_load_accu (load_loop (Z.to_nat 10000) 0 (load_cnt v) (load_accu v)) w
  | _ => w
  end.

Section Flash.

(** [const int max_delay] *)
Variable max_delay : Z.

Definition command_flash (w : world) : world :=
  let v := flash_vars w in
  match flash_state v with
  | 0 =>
      let '(rv, arg) :=
        Libc.sscanf_flash (input (shell_state w)) (flash_arg v) in
      w |> set_flash_arg arg
        |> set_flash_state (if (rv =? 1) && (arg >? 0) then 1 else 6)
  | 1 =>
      w |> LED 1
        |> set_flash_delay max_delay
        |> set_flash_state (Int.incr (flash_state v))
  | 2 =>
      let delay := Int.decr (flash_delay v) in
      w |> set_flash_delay delay
        |> set_flash_state (if delay >? 0 then 2 else 3)
  | 3 =>
      w |> LED 0
        |> set_flash_delay max_delay
        |> set_flash_state (Int.incr (flash_state v))
  | 4 =>
      let delay := Int.decr (flash_delay v) in
      w |> set_flash_delay delay
        |> set_flash_state (if delay >? 0 then 4 else 5)
  | 5 =>
      let arg := Int.decr (flash_arg v) in
      w |> set_flash_arg arg
        |> set_flash_state (if arg =? 0 then 6 else 1)
  | 6 =>
      RETURN set_flash_state w
  | _ => w
  end.

End Flash.

(** the value the file is compiled with *)
Definition max_delay : Z := 10000000.

(** the function a [command] value points to *)
Definition call (c : command) : world -> world :=
  match c with
  | cmd_cnt => command_cnt
  | cmd_led_toggle => command_led_toggle
  | cmd_load => command_load
  | cmd_flash => command_flash max_delay
  end.

(** ** Advancing the active command

    The shell calls the function [shell_state.command_fp] points to, once a
    tick, until the command has cleared that pointer.  [run f n w] makes at
    most [n] calls of [f] from [w]; it answers the number of the call that
    cleared the pointer and the state that call left, or [None] when [n]
    calls were not enough. *)

Definition completed (w : world) : bool :=
  match command_fp (shell_state w) with
  | None => true
  | Some _ => false
  end.

Fixpoint run (f : world -> world) (n : nat) (w : world) : option (nat * world) :=
  match n with
  | O => None
  | S n' =>
      let w' := f w in
      if completed w' then Some (1%nat, w')
      else match run f n' w' with
           | Some (t, w'') => Some (S t, w'')
           | None => None
           end
  end.

(** ** Command blocks *)

(** the three arrays of the file, as what a pointer to one of them is *)
Inductive block_ptr : Type :=
| ptr_level_2_block
| ptr_level_1_block
| ptr_root_block.

(** Modelled from the spec: [t_shell_block_entry] and the macros [BLOCK_LEN]
    and [CMD_BLOCK] come from [shell.h].  An entry is a label, a second
    field that holds the count of the block in a title entry ([BLOCK_LEN n])
    and otherwise a command function or 0, and a third that holds a block
    ([CMD_BLOCK b]) or 0. *)
Inductive fp_field : Type :=
| fp_null
| BLOCK_LEN (n : Z)
| fp_command (c : command).

Record t_shell_block_entry : Type := {
  label : string;
  fp : fp_field;
  block : option block_ptr
}.

Definition CMD_BLOCK (b : block_ptr) : option block_ptr := Some b.

Definition entry (l : string) (f : fp_field) (b : option block_ptr)
  : t_shell_block_entry := {| label := l; fp := f; block := b |}.

Definition level_2_block : list t_shell_block_entry :=
  [ entry "Submenu 2" (BLOCK_LEN 2) None;
    entry "load - performance test" (fp_command cmd_load) None;
    entry "load - performance test" (fp_command cmd_load) None ].

Definition level_1_block : list t_shell_block_entry :=
  [ entry "Submenu 1" (BLOCK_LEN 3) None;
    entry "load - performance test" (fp_command cmd_load) None;
    entry "load - performance test" (fp_command cmd_load) None;
    entry "sm2 - nested submenu example" fp_null (CMD_BLOCK ptr_level_2_block) ].

Definition root_block : list t_shell_block_entry :=
  [ entry "STM32" (BLOCK_LEN 5) None;
    entry "sm1 - submenu example" fp_null (CMD_BLOCK ptr_level_1_block);
    entry "led - toggles the blue LED" (fp_command cmd_led_toggle) None;
    entry "flash N - flash the LED 'N' times" (fp_command cmd_flash) None;
    entry "cnt - displays its own call count" (fp_command cmd_cnt) None;
    entry "load - performance test" (fp_command cmd_load) None ].

Definition deref (p : block_ptr) : list t_shell_block_entry :=
  match p with
  | ptr_level_2_block => level_2_block
  | ptr_level_1_block => level_1_block
  | ptr_root_block => root_block
  end.

(** every block defined in the program *)
Definition all_blocks : list block_ptr :=
  [ptr_level_2_block; ptr_level_1_block; ptr_root_block].

(** Modelled from the spec: the operations of the Command Tree are in the
    shell, not in this file.  [entry_count] is read off the title entry,
    [child] is access by index, [descend] gives the block of a submenu entry
    and [select] the function of a leaf. *)
Definition entry_count (b : list t_shell_block_entry) : option Z :=
  match b with
  | e :: _ => match fp e with
              | BLOCK_LEN n => Some n
              | _ => None
              end
  | [] => None
  end.

Definition child (b : list t_shell_block_entry) (i : nat)
  : option t_shell_block_entry := nth_error b i.

Definition descend (e : t_shell_block_entry) : option block_ptr := block e.

Definition select (e : t_shell_block_entry) : option command :=
  match fp e with
  | fp_command c => Some c
  | _ => None
  end.

Definition is_title (e : t_shell_block_entry) : bool :=
  match fp e with
  | BLOCK_LEN _ => true
  | _ => false
  end.

(** the entries physically present in the array, the title among them *)
Definition physical_entries (b : list t_shell_block_entry) : Z :=
  Z.of_nat (List.length b).

(** ** The definitions on small inputs *)

Example sscanf_flash_3 : Libc.sscanf_flash "flash 3" 0 = (1, 3).
Proof. reflexivity. Qed.

Example sscanf_flash_hex : Libc.sscanf_flash "flash 0x1F" 0 = (1, 31).
Proof. reflexivity. Qed.

Example sscanf_flash_zero : Libc.sscanf_flash "flash 0" 7 = (1, 0).
Proof. reflexivity. Qed.

Example sscanf_flash_negative : Libc.sscanf_flash "flash -5" 7 = (1, -5).
Proof. reflexivity. Qed.

Example sscanf_flash_word : Libc.sscanf_flash "flash abc" 7 = (0, 7).
Proof. reflexivity. Qed.

Example sscanf_flash_missing : Libc.sscanf_flash "flash" 7 = (Libc.EOF, 7).
Proof. reflexivity. Qed.

Example sscanf_flash_other : Libc.sscanf_flash "led" 7 = (0, 7).
Proof. reflexivity. Qed.

Example fmt_i_negative : Libc.fmt_i (-12) = "-12"%string.
Proof. reflexivity. Qed.

Example wrap_past_INT_MAX : Int.incr Int.INT_MAX = Int.INT_MIN.
Proof. reflexivity. Qed.

(** * Proofs *)

(** ** Machine integers *)

Lemma wrap_in_range (z : Z) : Int.in_range z -> Int.wrap z = z.
Proof.
  unfold Int.in_range, Int.INT_MIN, Int.INT_MAX, Int.wrap, Int.wrap_bits.
  intros H.
  change (2 ^ (32 - 1)) with 2147483648.
  change (2 ^ 32) with 4294967296.
  rewrite Z.mod_small; lia.
Qed.

Lemma decr_in_range (z : Z) :
  Int.INT_MIN < z <= Int.INT_MAX -> Int.decr z = z - 1.
Proof.
  intros H. apply wrap_in_range.
  unfold Int.in_range, Int.INT_MIN, Int.INT_MAX in *. lia.
Qed.

Lemma incr_in_range (z : Z) :
  Int.INT_MIN <= z < Int.INT_MAX -> Int.incr z = z + 1.
Proof.
  intros H. apply wrap_in_range.
  unfold Int.in_range, Int.INT_MIN, Int.INT_MAX in *. lia.
Qed.

Lemma decr_INT_MIN : Int.decr Int.INT_MIN = Int.INT_MAX.
Proof. reflexivity. Qed.

Lemma clamp_in_range (z : Z) : Int.in_range (Int.clamp z).
Proof.
  unfold Int.in_range, Int.clamp, Int.INT_MIN, Int.INT_MAX. lia.
Qed.

(** ** What [sscanf] stores fits an [int] *)

Lemma scan_i_in_range (s : string) (v : Z) :
  Libc.scan_i s = Libc.converted v -> Int.in_range v.
Proof.
  unfold Libc.scan_i.
  destruct (Libc.skip_space s) as [|c rest]; [discriminate|].
  destruct (if Ascii.eqb c "-"%char then (true, rest)
            else if Ascii.eqb c "+"%char then (false, rest)
            else (false, String c rest)) as [negative body].
  destruct (Libc.scan_magnitude body) as [m|]; [|discriminate].
  intros H. injection H as <-. apply clamp_in_range.
Qed.

Lemma sscanf_flash_in_range (s : string) (a v : Z) :
  Libc.sscanf_flash s a = (1, v) -> Int.in_range v.
Proof.
  unfold Libc.sscanf_flash, Libc.EOF.
  destruct (Libc.scan_literal "flash" s) as [[rest|]|]; try discriminate.
  destruct (Libc.scan_i (Libc.skip_space rest)) as [| |x] eqn:E;
    try discriminate.
  intros H. injection H as <-. exact (scan_i_in_range _ _ E).
Qed.

(** ** The runner *)

Definition later (k : nat) (r : option (nat * world)) : option (nat * world) :=
  match r with
  | Some (t, w) => Some ((k + t)%nat, w)
  | None => None
  end.

Lemma later_later (j k : nat) (r : option (nat * world)) :
  later j (later k r) = later (j + k) r.
Proof.
  destruct r as [[t w]|]; simpl; [|reflexivity].
  f_equal. f_equal. lia.
Qed.

Lemma run_active (f : world -> world) (n : nat) (w : world) :
  completed (f w) = false -> run f (S n) w = later 1 (run f n (f w)).
Proof.
  intros H. simpl. rewrite H. reflexivity.
Qed.

Lemma run_done (f : world -> world) (n : nat) (w : world) :
  completed (f w) = true -> run f (S n) w = Some (1%nat, f w).
Proof.
  intros H. simpl. rewrite H. reflexivity.
Qed.

(** the answer of [run] does not depend on how many calls it was allowed,
    once it was allowed enough *)
Lemma run_bound (f : world -> world) (n : nat) :
  forall w t w', run f n w = Some (t, w') -> (1 <= t <= n)%nat.
Proof.
  induction n as [|n IH]; intros w t w'; simpl; [discriminate|].
  destruct (completed (f w)).
  - intros H. injection H as <- _. lia.
  - destruct (run f n (f w)) as [[t0 w0]|] eqn:E; [|discriminate].
    intros H. injection H as <- _. apply IH in E. lia.
Qed.

Lemma run_more (f : world -> world) (n : nat) :
  forall w t w' m, run f n w = Some (t, w') -> run f (n + m) w = Some (t, w').
Proof.
  induction n as [|n IH]; intros w t w' m; simpl; [discriminate|].
  destruct (completed (f w)); [trivial|].
  destruct (run f n (f w)) as [[t0 w0]|] eqn:E; [|discriminate].
  intros H. rewrite (IH _ _ _ m E). exact H.
Qed.

Lemma run_less (f : world -> world) (n : nat) :
  forall w t w' m, run f n w = Some (t, w') -> (m < t)%nat -> run f m w = None.
Proof.
  induction n as [|n IH]; intros w t w' m; simpl; [discriminate|].
  destruct (completed (f w)) eqn:C.
  - intros H. injection H as <- _. intros Hm.
    assert (m = 0%nat) as -> by lia. reflexivity.
  - destruct (run f n (f w)) as [[t0 w0]|] eqn:E; [|discriminate].
    intros H. injection H as <- _. intros Hm.
    destruct m as [|m]; [reflexivity|].
    simpl. rewrite C. rewrite (IH _ _ _ m E); [reflexivity|lia].
Qed.

(** a command completes after exactly [t] calls, leaving [w'] *)
Definition completes_after (f : world -> world) (w : world) (t : nat) (w' : world)
  : Prop :=
  forall n, run f n w = if (t <=? n)%nat then Some (t, w') else None.

Lemma completes_after_intro (f : world -> world) (w : world) (t : nat) (w' : world) :
  run f t w = Some (t, w') -> completes_after f w t w'.
Proof.
  intros H n. destruct (t <=? n)%nat eqn:L.
  - apply Nat.leb_le in L.
    replace n with (t + (n - t))%nat by lia. apply run_more. exact H.
  - apply Nat.leb_gt in L. exact (run_less _ _ _ _ _ _ H L).
Qed.

Lemma completes_after_unique (f : world -> world) (w : world)
      (t1 t2 : nat) (w1 w2 : world) :
  completes_after f w t1 w1 -> completes_after f w t2 w2 -> t1 = t2 /\ w1 = w2.
Proof.
  intros H1 H2. specialize (H1 (t1 + t2)%nat). specialize (H2 (t1 + t2)%nat).
  replace (t1 <=? t1 + t2)%nat with true in H1
    by (symmetry; apply Nat.leb_le; lia).
  replace (t2 <=? t1 + t2)%nat with true in H2
    by (symmetry; apply Nat.leb_le; lia).
  rewrite H1 in H2. injection H2 as -> ->. split; reflexivity.
Qed.

(** ** [command_flash], state by state *)

(** the state [w] with the statics of [command_flash] and the LED replaced *)
Definition flash_at (w : world) (v : flash_statics) (g : gpio) : world :=
  set_led g (set_flash_vars v w).

Definition fvars (s a d : Z) : flash_statics :=
  {| flash_state := s; flash_arg := a; flash_delay := d |}.

Definition written (g : gpio) (s : GPIO_PinState) : gpio :=
  {| led_pin := s; hal_log := hal_log g ++ [WritePin s] |}.

(** one LED(1), LED(0) pair for each flash *)
Fixpoint blinks (n : nat) : list hal_call :=
  match n with
  | O => []
  | S n' => WritePin GPIO_PIN_SET :: WritePin GPIO_PIN_RESET :: blinks n'
  end.

Lemma flash_at_self (w : world) : flash_at w (flash_vars w) (led w) = w.
Proof. destruct w; reflexivity. Qed.

Lemma fvars_self (v : flash_statics) :
  fvars (flash_state v) (flash_arg v) (flash_delay v) = v.
Proof. destruct v; reflexivity. Qed.

Section FlashSteps.

Variable D : Z.
Variable w : world.
Variable g : gpio.
Variables a d : Z.

Lemma flash_step_0 :
  command_flash D (flash_at w (fvars 0 a d) g) =
  let '(rv, arg) := Libc.sscanf_flash (input (shell_state w)) a in
  flash_at w (fvars (if (rv =? 1) && (arg >? 0) then 1 else 6) arg d) g.
Proof.
  unfold command_flash. simpl.
  destruct (Libc.sscanf_flash (input (shell_state w)) a) as [rv arg].
  reflexivity.
Qed.

Lemma flash_step_1 :
  command_flash D (flash_at w (fvars 1 a d) g) =
  flash_at w (fvars 2 a D) (written g GPIO_PIN_SET).
Proof. reflexivity. Qed.

Lemma flash_step_2 :
  command_flash D (flash_at w (fvars 2 a d) g) =
  flash_at w (fvars (if Int.decr d >? 0 then 2 else 3) a (Int.decr d)) g.
Proof. reflexivity. Qed.

Lemma flash_step_3 :
  command_flash D (flash_at w (fvars 3 a d) g) =
  flash_at w (fvars 4 a D) (written g GPIO_PIN_RESET).
Proof. reflexivity. Qed.

Lemma flash_step_4 :
  command_flash D (flash_at w (fvars 4 a d) g) =
  flash_at w (fvars (if Int.decr d >? 0 then 4 else 5) a (Int.decr d)) g.
Proof. reflexivity. Qed.

Lemma flash_step_5 :
  command_flash D (flash_at w (fvars 5 a d) g) =
  flash_at w (fvars (if Int.decr a =? 0 then 6 else 1) (Int.decr a) d) g.
Proof. reflexivity. Qed.

Lemma flash_step_6 :
  command_flash D (flash_at w (fvars 6 a d) g) =
  set_command_fp None
    (set_shell_fp shell_state_output (flash_at w (fvars 0 a d) g)).
Proof. reflexivity. Qed.

Lemma completed_flash_at (v : flash_statics) :
  completed (flash_at w v g) = completed w.
Proof. reflexivity. Qed.

End FlashSteps.

(** ** The delay loops of [command_flash] (states 2 and 4) *)

Definition delay_state (s : Z) : Prop := s = 2 \/ s = 4.

Lemma flash_step_delay (D : Z) (w : world) (g : gpio) (s a d : Z) :
  delay_state s ->
  command_flash D (flash_at w (fvars s a d) g) =
  flash_at w (fvars (if Int.decr d >? 0 then s else s + 1) a (Int.decr d)) g.
Proof.
  intros [-> | ->].
  - rewrite flash_step_2. destruct (Int.decr d >? 0); reflexivity.
  - rewrite flash_step_4. destruct (Int.decr d >? 0); reflexivity.
Qed.

(** a loop entered with a positive [delay] is left after [delay] calls,
    with [delay] at 0 *)
Lemma delay_loop_positive (D : Z) (w : world) (s a : Z) (g : gpio) (n : nat) :
  delay_state s ->
  completed w = false ->
  forall k : nat,
    Z.of_nat (S k) <= Int.INT_MAX ->
    run (command_flash D) (S k + n) (flash_at w (fvars s a (Z.of_nat (S k))) g) =
    later (S k) (run (command_flash D) n (flash_at w (fvars (s + 1) a 0) g)).
Proof.
  intros Hs Hw k. induction k as [|k IH]; intros Hk.
  - change (1 + n)%nat with (S n).
    rewrite run_active; rewrite (flash_step_delay _ _ _ _ _ _ Hs);
      [|exact Hw].
    reflexivity.
  - change (S (S k) + n)%nat with (S (S k + n)).
    rewrite run_active; rewrite (flash_step_delay _ _ _ _ _ _ Hs);
      [|exact Hw].
    rewrite decr_in_range by (unfold Int.INT_MIN; lia).
    replace (Z.of_nat (S (S k)) - 1) with (Z.of_nat (S k)) by lia.
    replace (Z.of_nat (S k) >? 0) with true by (symmetry; apply Z.gtb_lt; lia).
    rewrite IH by lia. rewrite later_later. reflexivity.
Qed.

(** the number of calls a delay loop takes when it is entered with [delay]
    at [D], for every [int] value of [D]: [D] calls when [D] is positive, one
    call when it is not, the decrement being made before the test; at
    [INT_MIN] the decrement wraps to [INT_MAX] and the loop counts that down *)
Definition phase (D : Z) : nat :=
  if D >? 0 then Z.to_nat D
  else if D =? Int.INT_MIN then S (Z.to_nat Int.INT_MAX)
  else 1%nat.

(** the value [delay] is left with *)
Definition delay_left (D : Z) : Z :=
  if D >? 0 then 0
  else if D =? Int.INT_MIN then 0
  else D - 1.

Lemma phase_positive (d : Z) : 0 < d -> phase d = Z.to_nat d.
Proof.
  intros H. unfold phase.
  replace (d >? 0) with true by (symmetry; apply Z.gtb_lt; lia).
  reflexivity.
Qed.

Lemma delay_left_positive (d : Z) : 0 < d -> delay_left d = 0.
Proof.
  intros H. unfold delay_left.
  replace (d >? 0) with true by (symmetry; apply Z.gtb_lt; lia).
  reflexivity.
Qed.

Lemma phase_nonpositive (d : Z) :
  d <= 0 -> d <> Int.INT_MIN -> phase d = 1%nat /\ delay_left d = d - 1.
Proof.
  intros H Hmin. unfold phase, delay_left.
  replace (d >? 0) with false
    by (symmetry; destruct (Z.gtb_spec d 0); [lia|reflexivity]).
  replace (d =? Int.INT_MIN) with false
    by (symmetry; apply Z.eqb_neq; assumption).
  split; reflexivity.
Qed.

Section DelayLoop.

Variable D : Z.
Variable w : world.
Variables s a : Z.
Variable g : gpio.
Variable n : nat.
Hypothesis Hs : delay_state s.
Hypothesis Hw : completed w = false.

Let f := command_flash D.

Lemma delay_loop_from_positive (d : Z) :
  0 < d <= Int.INT_MAX ->
  run f (Z.to_nat d + n) (flash_at w (fvars s a d) g) =
  later (Z.to_nat d) (run f n (flash_at w (fvars (s + 1) a 0) g)).
Proof.
  intros [Hpos Hhi].
  destruct (Z.to_nat d) as [|k] eqn:Hk; [lia|].
  replace d with (Z.of_nat (S k)) by lia.
  apply delay_loop_positive; [assumption|assumption|lia].
Qed.

Lemma delay_loop_from_nonpositive (d : Z) :
  Int.INT_MIN < d <= 0 ->
  run f (1 + n) (flash_at w (fvars s a d) g) =
  later 1 (run f n (flash_at w (fvars (s + 1) a (d - 1)) g)).
Proof.
  intros [Hlo Hhi]. change (1 + n)%nat with (S n). unfold f.
  rewrite run_active; rewrite (flash_step_delay _ _ _ _ _ _ Hs);
    [|exact Hw].
  rewrite decr_in_range by (unfold Int.INT_MIN, Int.INT_MAX in *; lia).
  replace (d - 1 >? 0) with false
    by (symmetry; destruct (Z.gtb_spec (d - 1) 0); [lia|reflexivity]).
  reflexivity.
Qed.

Lemma delay_loop_from_INT_MIN (m : nat) :
  Z.of_nat m = Int.INT_MAX ->
  run f (S m + n) (flash_at w (fvars s a Int.INT_MIN) g) =
  later (S m) (run f n (flash_at w (fvars (s + 1) a 0) g)).
Proof.
  intros Hm. change (S m + n)%nat with (S (m + n)). unfold f.
  rewrite run_active; rewrite (flash_step_delay _ _ _ _ _ _ Hs);
    [|exact Hw].
  rewrite decr_INT_MIN. rewrite <- Hm.
  destruct m as [|k]; [unfold Int.INT_MAX in Hm; lia|].
  replace (Z.of_nat (S k) >? 0) with true by (symmetry; apply Z.gtb_lt; lia).
  rewrite delay_loop_positive; [|assumption|assumption|lia].
  rewrite later_later. reflexivity.
Qed.

Lemma delay_loop (d : Z) :
  Int.in_range d ->
  run f (phase d + n) (flash_at w (fvars s a d) g) =
  later (phase d) (run f n (flash_at w (fvars (s + 1) a (delay_left d)) g)).
Proof.
  intros [Hlo Hhi].
  destruct (Z_lt_le_dec 0 d) as [Hpos | Hle].
  - rewrite (phase_positive d Hpos), (delay_left_positive d Hpos).
    apply delay_loop_from_positive. split; assumption.
  - destruct (Z.eq_dec d Int.INT_MIN) as [-> | Hmin].
    + apply (delay_loop_from_INT_MIN (Z.to_nat Int.INT_MAX)).
      apply Z2Nat.id. discriminate.
    + destruct (phase_nonpositive d Hle Hmin) as [-> ->].
      apply delay_loop_from_nonpositive. lia.
Qed.

End DelayLoop.

(** ** One flash, then all of them *)

(** the LED after [k] more flashes *)
Definition blinked (g : gpio) (k : nat) : gpio :=
  match k with
  | O => g
  | S _ => {| led_pin := GPIO_PIN_RESET; hal_log := hal_log g ++ blinks k |}
  end.

Lemma blinked_once (g : gpio) (k : nat) :
  blinked (written (written g GPIO_PIN_SET) GPIO_PIN_RESET) k =
  blinked g (S k).
Proof.
  unfold written; destruct k as [|k]; cbn [blinked hal_log led_pin blinks];
    rewrite <- !app_assoc; reflexivity.
Qed.

(** calls from state 1 back to state 1 (or on to state 6): LED on, a delay
    loop, LED off, a delay loop, the count *)
Definition flash_period (D : Z) : nat := (phase D + phase D + 3)%nat.

(** calls from state 0 to completion for the argument [N] *)
Definition flash_ticks (D N : Z) : nat := (2 + Z.to_nat N * flash_period D)%nat.

(** the state the completing call leaves *)
Definition flash_final (D : Z) (w : world) (N : Z) : world :=
  set_command_fp None
    (set_shell_fp shell_state_output
       (flash_at w (fvars 0 0 (delay_left D)) (blinked (led w) (Z.to_nat N)))).

Section FlashLoop.

Variable D : Z.
Variable w : world.
Hypothesis HD : Int.in_range D.
Hypothesis Hw : completed w = false.

Let f := command_flash D.

Lemma one_flash (a d : Z) (g : gpio) (n : nat) :
  run f (flash_period D + n) (flash_at w (fvars 1 a d) g) =
  later (flash_period D)
    (run f n
       (flash_at w
          (fvars (if Int.decr a =? 0 then 6 else 1) (Int.decr a) (delay_left D))
          (written (written g GPIO_PIN_SET) GPIO_PIN_RESET))).
Proof.
  unfold flash_period.
  replace (phase D + phase D + 3 + n)%nat
    with (S (phase D + S (phase D + S n)))%nat by lia.
  unfold f.
  rewrite run_active; rewrite flash_step_1; [|exact Hw].
  rewrite (delay_loop D w 2 a _ _ (or_introl eq_refl) Hw D HD).
  change (2 + 1) with 3.
  rewrite run_active; rewrite flash_step_3; [|exact Hw].
  rewrite (delay_loop D w 4 a _ _ (or_intror eq_refl) Hw D HD).
  change (4 + 1) with 5.
  rewrite run_active; rewrite flash_step_5; [|exact Hw].
  rewrite !later_later. f_equal. lia.
Qed.

Lemma all_flashes (n : nat) :
  forall (k : nat) (d : Z) (g : gpio),
    Z.of_nat (S k) <= Int.INT_MAX ->
    run f (S k * flash_period D + n) (flash_at w (fvars 1 (Z.of_nat (S k)) d) g) =
    later (S k * flash_period D)
      (run f n (flash_at w (fvars 6 0 (delay_left D)) (blinked g (S k)))).
Proof.
  induction k as [|k IH]; intros d g Hk.
  - replace (1 * flash_period D + n)%nat with (flash_period D + n)%nat by lia.
    rewrite one_flash.
    replace (1 * flash_period D)%nat with (flash_period D) by lia.
    change (Int.decr (Z.of_nat 1)) with 0.
    change (written (written g GPIO_PIN_SET) GPIO_PIN_RESET)
      with (blinked (written (written g GPIO_PIN_SET) GPIO_PIN_RESET) 0).
    rewrite blinked_once. reflexivity.
  - replace (S (S k) * flash_period D + n)%nat
      with (flash_period D + (S k * flash_period D + n))%nat by lia.
    rewrite one_flash.
    rewrite decr_in_range by (unfold Int.INT_MIN; lia).
    replace (Z.of_nat (S (S k)) - 1) with (Z.of_nat (S k)) by lia.
    replace (Z.of_nat (S k) =? 0) with false
      by (symmetry; apply Z.eqb_neq; lia).
    rewrite IH by lia.
    rewrite later_later, blinked_once. reflexivity.
Qed.

(** from state 0, with an argument that [sscanf] converts to a positive
    [N]: the run, call by call *)
Lemma flash_run (N : Z) :
  flash_state (flash_vars w) = 0 ->
  Libc.sscanf_flash (input (shell_state w)) (flash_arg (flash_vars w)) = (1, N) ->
  0 < N ->
  completes_after f w (flash_ticks D N) (flash_final D w N).
Proof.
  intros Hst Hscan HN.
  pose proof (sscanf_flash_in_range _ _ _ Hscan) as [_ Hhi].
  apply completes_after_intro.
  rewrite <- (flash_at_self w) at 1.
  rewrite <- (fvars_self (flash_vars w)). rewrite Hst.
  unfold flash_ticks.
  destruct (Z.to_nat N) as [|k] eqn:Hk; [lia|].
  replace N with (Z.of_nat (S k)) in * by lia.
  replace (2 + S k * flash_period D)%nat
    with (S (S k * flash_period D + 1))%nat by lia.
  unfold f.
  rewrite run_active; rewrite flash_step_0, Hscan; [|exact Hw].
  replace ((1 =? 1) && (Z.of_nat (S k) >? 0)) with true
    by (symmetry; apply andb_true_intro; split;
        [reflexivity | apply Z.gtb_lt; lia]).
  rewrite (all_flashes 1 k _ _ Hhi).
  unfold f. rewrite run_done; rewrite flash_step_6; [|reflexivity].
  unfold later, flash_final. rewrite Hk. f_equal; f_equal; lia.
Qed.

End FlashLoop.

(** ** An argument that is refused *)

Lemma active_not_completed (w : world) (c : command) :
  command_fp (shell_state w) = Some c -> completed w = false.
Proof. unfold completed. intros ->. reflexivity. Qed.

(** the state the completing call leaves when state 0 went to state 6 *)
Definition flash_refused (w : world) (arg : Z) : world :=
  set_command_fp None
    (set_shell_fp shell_state_output
       (flash_at w (fvars 0 arg (flash_delay (flash_vars w))) (led w))).

Lemma flash_refuse (D : Z) (w : world) (rv arg : Z) :
  flash_state (flash_vars w) = 0 ->
  completed w = false ->
  Libc.sscanf_flash (input (shell_state w)) (flash_arg (flash_vars w)) = (rv, arg) ->
  (rv =? 1) && (arg >? 0) = false ->
  command_flash D w =
    flash_at w (fvars 6 arg (flash_delay (flash_vars w))) (led w) /\
  completes_after (command_flash D) w 2 (flash_refused w arg).
Proof.
  intros Hst Hw Hscan Hguard.
  assert (command_flash D w =
          flash_at w (fvars 6 arg (flash_delay (flash_vars w))) (led w)) as Hstep.
  { rewrite <- (flash_at_self w) at 1.
    rewrite <- (fvars_self (flash_vars w)). rewrite Hst.
    rewrite flash_step_0, Hscan, Hguard. reflexivity. }
  split; [exact Hstep|].
  apply completes_after_intro.
  rewrite run_active; rewrite Hstep; [|exact Hw].
  rewrite run_done; rewrite flash_step_6; reflexivity.
Qed.

(** ** The state the shell starts a command in *)

(** every static at its initial value, the text [line] in the input buffer
    and the command [c] selected; [shell_fp] is with a function of the shell *)
Definition boot (line : string) (c : command) : world :=
  {| shell_state := {| input := line; output := EmptyString; busy := 0;
                       command_fp := Some c |};
     shell_fp := shell_fn 1;
     cnt_vars := {| cnt_state := 0; cnt_cnt := 0 |};
     load_vars := {| load_state := 0; load_cnt := 0; load_accu := 0 |};
     flash_vars := fvars 0 0 0;
     led := {| led_pin := GPIO_PIN_RESET; hal_log := [] |} |}.

Example flash_2_with_delay_1 :
  option_map fst (run (command_flash 1) 20 (boot "flash 2" cmd_flash)) = Some 12%nat.
Proof. reflexivity. Qed.

Example flash_3_with_delay_4 :
  option_map fst (run (command_flash 4) 40 (boot "flash 3" cmd_flash)) = Some 35%nat.
Proof. reflexivity. Qed.

Example flash_3_too_few_calls :
  run (command_flash 4) 34 (boot "flash 3" cmd_flash) = None.
Proof. reflexivity. Qed.

Example cnt_first_run :
  option_map (fun r => (fst r, output (shell_state (snd r)), cnt_cnt (cnt_vars (snd r))))
    (run command_cnt 5 (boot "cnt" cmd_cnt)) =
  Some (2%nat, called_times 0, 1).
Proof. reflexivity. Qed.

(** ** How long [command_flash] runs *)

Lemma flash_ticks_formula (D N : Z) :
  0 < D -> 0 < N -> Z.of_nat (flash_ticks D N) = N * (2 * D + 3) + 2.
Proof.
  intros HD HN. unfold flash_ticks, flash_period.
  rewrite (phase_positive D HD).
  rewrite Nat2Z.inj_add, Nat2Z.inj_mul, !Nat2Z.inj_add.
  rewrite !Z2Nat.id by lia. change (Z.of_nat 2) with 2.
  change (Z.of_nat 3) with 3. ring.
Qed.

(** C1, as the code has it: from state 0, with a text that [sscanf]
    converts to a positive [N], and a per-phase delay [D] (any positive
    [int]; the file is compiled with [max_delay]), the calls of
    [command_flash] reach completion after exactly [N * (2 * D + 3) + 2] of
    them: one call for the parse, for each flash two LED calls, two delay
    loops of [D] calls and one call for the count, and one call for the
    exit.  The completing call clears [command_fp], resets the state to 0 and
    hands [shell_fp] to the output phase.  The part that is not [N * 2 * D]
    is [3 * N + 2]: it grows with [N]. *)
Theorem flash_completes_after_exact_ticks (D : Z) (w : world) (N : Z) :
  0 < D <= Int.INT_MAX ->
  flash_state (flash_vars w) = 0 ->
  command_fp (shell_state w) = Some cmd_flash ->
  Libc.sscanf_flash (input (shell_state w)) (flash_arg (flash_vars w)) = (1, N) ->
  0 < N ->
  exists w',
    completes_after (command_flash D) w (Z.to_nat (N * (2 * D + 3) + 2)) w' /\
    command_fp (shell_state w') = None /\
    flash_state (flash_vars w') = 0 /\
    shell_fp w' = shell_state_output.
Proof.
  intros [HD Hhi] Hst Hact Hscan HN.
  exists (flash_final D w N).
  rewrite <- (flash_ticks_formula D N HD HN), Nat2Z.id.
  split; [|repeat split].
  apply flash_run; try assumption.
  - unfold Int.in_range, Int.INT_MIN. lia.
  - exact (active_not_completed _ _ Hact).
Qed.

Lemma flash_completes_after_exact_ticks_witness :
  exists w',
    completes_after (command_flash max_delay) (boot "flash 3" cmd_flash)
      (Z.to_nat (3 * (2 * max_delay + 3) + 2)) w' /\
    command_fp (shell_state w') = None /\
    flash_state (flash_vars w') = 0 /\
    shell_fp w' = shell_state_output.
Proof.
  apply (flash_completes_after_exact_ticks max_delay (boot "flash 3" cmd_flash) 3).
  - unfold max_delay, Int.INT_MAX. lia.
  - reflexivity.
  - reflexivity.
  - reflexivity.
  - lia.
Defined.

(** C1, as the spec has it, fails: no constant [c] makes the number of
    calls [N * 2 * D + c] for every [N], already with the delay the file is
    compiled with; "flash 1" and "flash 2" need different constants. *)
Lemma flash_ticks_overhead_depends_on_N :
  ~ (exists c : Z,
       forall (w : world) (N : Z),
         flash_state (flash_vars w) = 0 ->
         command_fp (shell_state w) = Some cmd_flash ->
         Libc.sscanf_flash (input (shell_state w)) (flash_arg (flash_vars w))
           = (1, N) ->
         0 < N ->
         exists w',
           completes_after (command_flash max_delay) w
             (Z.to_nat (N * 2 * max_delay + c)) w').
Proof.
  intros [c H].
  assert (0 < max_delay) as HD by reflexivity.
  assert (Int.in_range max_delay) as Hr by (split; discriminate).
  destruct (H (boot "flash 1" cmd_flash) 1 eq_refl eq_refl eq_refl eq_refl)
    as [w1 H1].
  destruct (H (boot "flash 2" cmd_flash) 2 eq_refl eq_refl eq_refl eq_refl)
    as [w2 H2].
  pose proof (flash_run max_delay (boot "flash 1" cmd_flash) Hr eq_refl
                1 eq_refl eq_refl eq_refl) as R1.
  pose proof (flash_run max_delay (boot "flash 2" cmd_flash) Hr eq_refl
                2 eq_refl eq_refl eq_refl) as R2.
  destruct (completes_after_unique _ _ _ _ _ _ H1 R1) as [E1 _].
  destruct (completes_after_unique _ _ _ _ _ _ H2 R2) as [E2 _].
  apply (f_equal Z.of_nat) in E1, E2.
  rewrite flash_ticks_formula in E1, E2 by lia.
  lia.
Qed.

(** ** What [command_flash] does to the LED *)

(** C2: from state 0 with the input text "flash 3", for every [int] value
    of the delay constant, the calls of [command_flash] reach completion, and
    up to the completing call the LED pin has been written exactly six
    times: LED(1) then LED(0), three times over. *)
Theorem flash_3_blinks_three_times (D : Z) (w : world) :
  Int.in_range D ->
  flash_state (flash_vars w) = 0 ->
  command_fp (shell_state w) = Some cmd_flash ->
  input (shell_state w) = "flash 3"%string ->
  exists (t : nat) (w' : world),
    completes_after (command_flash D) w t w' /\
    hal_log (led w') =
      hal_log (led w) ++
      [WritePin GPIO_PIN_SET; WritePin GPIO_PIN_RESET;
       WritePin GPIO_PIN_SET; WritePin GPIO_PIN_RESET;
       WritePin GPIO_PIN_SET; WritePin GPIO_PIN_RESET].
Proof.
  intros HD Hst Hact Hin.
  exists (flash_ticks D 3), (flash_final D w 3).
  split; [|reflexivity].
  apply flash_run; try assumption.
  - exact (active_not_completed _ _ Hact).
  - rewrite Hin. reflexivity.
  - lia.
Qed.

Lemma flash_3_blinks_three_times_witness :
  exists (t : nat) (w' : world),
    completes_after (command_flash max_delay) (boot "flash 3" cmd_flash) t w' /\
    hal_log (led w') =
      [WritePin GPIO_PIN_SET; WritePin GPIO_PIN_RESET;
       WritePin GPIO_PIN_SET; WritePin GPIO_PIN_RESET;
       WritePin GPIO_PIN_SET; WritePin GPIO_PIN_RESET].
Proof.
  apply (flash_3_blinks_three_times max_delay (boot "flash 3" cmd_flash)).
  - split; discriminate.
  - reflexivity.
  - reflexivity.
  - reflexivity.
Defined.

(** ** Arguments [command_flash] refuses *)

(** C5: when the [sscanf] of state 0 does not return 1, or leaves [arg] at
    zero or below, the first call goes to state 6 without touching the LED
    and the second call completes: it clears [command_fp], hands [shell_fp]
    to the output phase and resets the state; the LED pin and the record of
    the HAL calls are as they were. *)
Theorem flash_parse_failure_goes_to_exit (D : Z) (w : world) (rv arg : Z) :
  flash_state (flash_vars w) = 0 ->
  command_fp (shell_state w) = Some cmd_flash ->
  Libc.sscanf_flash (input (shell_state w)) (flash_arg (flash_vars w)) = (rv, arg) ->
  ~ (rv = 1 /\ 0 < arg) ->
  exists w',
    completes_after (command_flash D) w 2 w' /\
    flash_state (flash_vars (command_flash D w)) = 6 /\
    led (command_flash D w) = led w /\
    command_fp (shell_state (command_flash D w)) = Some cmd_flash /\
    led w' = led w /\
    command_fp (shell_state w') = None /\
    shell_fp w' = shell_state_output /\
    flash_state (flash_vars w') = 0.
Proof.
  intros Hst Hact Hscan Hbad.
  assert ((rv =? 1) && (arg >? 0) = false) as Hguard.
  { destruct (Z.eqb_spec rv 1) as [->|]; [|reflexivity].
    destruct (Z.gtb_spec arg 0); [|reflexivity].
    exfalso. apply Hbad. split; [reflexivity|assumption]. }
  destruct (flash_refuse D w rv arg Hst (active_not_completed _ _ Hact)
              Hscan Hguard) as [Hstep Hrun].
  exists (flash_refused w arg). rewrite Hstep.
  repeat split; try assumption.
Qed.

Lemma flash_parse_failure_goes_to_exit_witness :
  exists w',
    completes_after (command_flash max_delay) (boot "flash x" cmd_flash) 2 w' /\
    flash_state (flash_vars (command_flash max_delay (boot "flash x" cmd_flash))) = 6 /\
    led (command_flash max_delay (boot "flash x" cmd_flash)) =
      led (boot "flash x" cmd_flash) /\
    command_fp (shell_state (command_flash max_delay (boot "flash x" cmd_flash)))
      = Some cmd_flash /\
    led w' = led (boot "flash x" cmd_flash) /\
    command_fp (shell_state w') = None /\
    shell_fp w' = shell_state_output /\
    flash_state (flash_vars w') = 0.
Proof.
  apply (flash_parse_failure_goes_to_exit max_delay (boot "flash x" cmd_flash) 0 0).
  - reflexivity.
  - reflexivity.
  - reflexivity.
  - intros [H _]. discriminate H.
Defined.

(** C10: when the [sscanf] of state 0 returns 1 and stores a negative
    integer, the guard [arg > 0] fails as it does for a text that does not
    parse: the first call goes to state 6, the second completes, and the LED
    has not been touched. *)
Theorem flash_negative_argument_goes_to_exit (D : Z) (w : world) (arg : Z) :
  flash_state (flash_vars w) = 0 ->
  command_fp (shell_state w) = Some cmd_flash ->
  Libc.sscanf_flash (input (shell_state w)) (flash_arg (flash_vars w)) = (1, arg) ->
  arg < 0 ->
  exists w',
    completes_after (command_flash D) w 2 w' /\
    flash_state (flash_vars (command_flash D w)) = 6 /\
    led (command_flash D w) = led w /\
    led w' = led w /\
    command_fp (shell_state w') = None /\
    shell_fp w' = shell_state_output /\
    flash_state (flash_vars w') = 0.
Proof.
  intros Hst Hact Hscan Hneg.
  assert ((1 =? 1) && (arg >? 0) = false) as Hguard.
  { destruct (Z.gtb_spec arg 0); [lia|reflexivity]. }
  destruct (flash_refuse D w 1 arg Hst (active_not_completed _ _ Hact)
              Hscan Hguard) as [Hstep Hrun].
  exists (flash_refused w arg). rewrite Hstep.
  repeat split; try assumption.
Qed.

Lemma flash_negative_argument_goes_to_exit_witness :
  exists w',
    completes_after (command_flash max_delay) (boot "flash -5" cmd_flash) 2 w' /\
    flash_state (flash_vars (command_flash max_delay (boot "flash -5" cmd_flash))) = 6 /\
    led (command_flash max_delay (boot "flash -5" cmd_flash)) =
      led (boot "flash -5" cmd_flash) /\
    led w' = led (boot "flash -5" cmd_flash) /\
    command_fp (shell_state w') = None /\
    shell_fp w' = shell_state_output /\
    flash_state (flash_vars w') = 0.
Proof.
  apply (flash_negative_argument_goes_to_exit max_delay
           (boot "flash -5" cmd_flash) (-5)).
  - reflexivity.
  - reflexivity.
  - reflexivity.
  - lia.
Defined.

(** ** [command_cnt] *)

(** the state the completing call of [command_cnt] leaves *)
Definition cnt_final (w : world) : world :=
  RETURN set_cnt_state
    (set_cnt_cnt (Int.incr (cnt_cnt (cnt_vars w)))
       (set_cnt_state 1
          (set_shell_fp shell_state_output
             (set_output (called_times (cnt_cnt (cnt_vars w))) w)))).

Lemma cnt_run (w : world) :
  cnt_state (cnt_vars w) = 0 ->
  completed w = false ->
  command_cnt w =
    set_cnt_state 1
      (set_shell_fp shell_state_output
         (set_output (called_times (cnt_cnt (cnt_vars w))) w)) /\
  completes_after command_cnt w 2 (cnt_final w).
Proof.
  intros Hst Hw.
  assert (command_cnt w =
          set_cnt_state 1
            (set_shell_fp shell_state_output
               (set_output (called_times (cnt_cnt (cnt_vars w))) w))) as Hstep.
  { unfold command_cnt. rewrite Hst. reflexivity. }
  split; [exact Hstep|].
  apply completes_after_intro.
  rewrite run_active; rewrite Hstep; [|exact Hw].
  rewrite run_done; reflexivity.
Qed.

(** the text [sprintf] writes tells the counter *)
Lemma fmt_i_inj (a b : Z) : Libc.fmt_i a = Libc.fmt_i b -> a = b.
Proof.
  unfold Libc.fmt_i. intros H.
  assert (forall z, NilZero.int_of_string (NilZero.string_of_int (Z.to_int z))
                    = Some (Z.to_int z)) as Hisi.
  { intros z. apply NilZero.isi; destruct z; simpl; try discriminate;
      intros E; injection E as E; exact (DecimalPos.Unsigned.to_uint_nonnil _ E). }
  pose proof (Hisi a) as Ha. rewrite H, Hisi in Ha.
  injection Ha as Ha. symmetry. exact (DecimalZ.to_int_inj _ _ Ha).
Qed.

Lemma append_length (s t : string) :
  String.length (s ++ t) = (String.length s + String.length t)%nat.
Proof.
  induction s as [|c s IH]; simpl; [reflexivity|]. rewrite IH. reflexivity.
Qed.

Lemma append_cancel_r (t : string) :
  forall s1 s2 : string, (s1 ++ t = s2 ++ t)%string -> s1 = s2.
Proof.
  induction s1 as [|c1 s1 IH]; intros [|c2 s2] H.
  - reflexivity.
  - apply (f_equal String.length) in H. simpl in H.
    rewrite append_length in H. lia.
  - apply (f_equal String.length) in H. simpl in H.
    rewrite append_length in H. lia.
  - simpl in H. injection H as -> H. f_equal. exact (IH _ H).
Qed.

Lemma called_times_inj (a b : Z) : called_times a = called_times b -> a = b.
Proof.
  unfold called_times, Libc.CRLF. simpl. intros H.
  injection H as H. apply append_cancel_r in H. exact (fmt_i_inj _ _ H).
Qed.

(** [called_times n] is the text ["\r\nCalled <n> times"], character by
    character, with [n] in decimal as the standard library writes an
    integer *)
Lemma called_times_text (n : Z) :
  called_times n =
  String "013"%char
    (String "010"%char
       ("Called " ++ NilZero.string_of_int (Z.to_int n) ++ " times")%string).
Proof. reflexivity. Qed.

(** the decimal text of an integer reads back as that integer *)
Lemma decimal_reads_back (n : Z) :
  option_map Z.of_int (NilZero.int_of_string (NilZero.string_of_int (Z.to_int n)))
  = Some n.
Proof.
  rewrite NilZero.isi.
  - cbn [option_map]. rewrite DecimalZ.of_to. reflexivity.
  - destruct n; simpl; try discriminate.
    intros E; injection E as E; exact (DecimalPos.Unsigned.to_uint_nonnil _ E).
  - destruct n; simpl; try discriminate.
    intros E; injection E as E; exact (DecimalPos.Unsigned.to_uint_nonnil _ E).
Qed.

(** C6: two runs of [command_cnt], each from state 0 through completion.
    Each run takes two calls; the call in state 0 writes the counter into the
    output buffer and leaves the counter alone, the call in state 1 adds one
    to it.  So the first run reports [c] and leaves [c + 1], and the second,
    started by the shell with the statics as the first run left them, reports
    [c + 1] and leaves [c + 2].  What a run reports is the content of the
    output buffer, given here as text: carriage return, line feed, "Called ",
    the counter in decimal, " times".  The counter is an [int]: [c + 2] is to
    be at most [INT_MAX]. *)
Theorem cnt_reports_then_increments (w : world) (c : Z) :
  cnt_state (cnt_vars w) = 0 ->
  cnt_cnt (cnt_vars w) = c ->
  Int.INT_MIN <= c /\ c + 2 <= Int.INT_MAX ->
  command_fp (shell_state w) = Some cmd_cnt ->
  exists w1,
    completes_after command_cnt w 2 w1 /\
    output (shell_state (command_cnt w)) =
      String "013"%char
        (String "010"%char
           ("Called " ++ NilZero.string_of_int (Z.to_int c) ++ " times")%string) /\
    cnt_cnt (cnt_vars (command_cnt w)) = c /\
    output (shell_state w1) =
      String "013"%char
        (String "010"%char
           ("Called " ++ NilZero.string_of_int (Z.to_int c) ++ " times")%string) /\
    cnt_cnt (cnt_vars w1) = c + 1 /\
    cnt_state (cnt_vars w1) = 0 /\
    forall w2,
      cnt_vars w2 = cnt_vars w1 ->
      command_fp (shell_state w2) = Some cmd_cnt ->
      exists w3,
        completes_after command_cnt w2 2 w3 /\
        output (shell_state (command_cnt w2)) =
          String "013"%char
            (String "010"%char
               ("Called " ++ NilZero.string_of_int (Z.to_int (c + 1)) ++ " times")%string) /\
        cnt_cnt (cnt_vars (command_cnt w2)) = c + 1 /\
        output (shell_state w3) =
          String "013"%char
            (String "010"%char
               ("Called " ++ NilZero.string_of_int (Z.to_int (c + 1)) ++ " times")%string) /\
        cnt_cnt (cnt_vars w3) = c + 2 /\
        cnt_state (cnt_vars w3) = 0.
Proof.
  intros Hst Hc [Hlo Hhi] Hact.
  destruct (cnt_run w Hst (active_not_completed _ _ Hact)) as [Hstep Hrun].
  assert (cnt_cnt (cnt_vars (cnt_final w)) = c + 1) as Hc1.
  { simpl. rewrite Hc. apply incr_in_range. lia. }
  assert (output (shell_state (cnt_final w)) = String "013"%char (String "010"%char
        ("Called " ++ NilZero.string_of_int (Z.to_int c) ++ " times")%string)) as Hout1.
  { rewrite <- called_times_text, <- Hc. reflexivity. }
  exists (cnt_final w). rewrite Hstep.
  split; [exact Hrun|]. split; [exact Hout1|].
  split; [exact Hc|]. split; [exact Hout1|].
  split; [exact Hc1|]. split; [reflexivity|].
  intros w2 Hvars Hact2.
  assert (cnt_state (cnt_vars w2) = 0) as Hst2 by (rewrite Hvars; reflexivity).
  assert (cnt_cnt (cnt_vars w2) = c + 1) as Hc2 by (rewrite Hvars; exact Hc1).
  destruct (cnt_run w2 Hst2 (active_not_completed _ _ Hact2)) as [Hstep2 Hrun2].
  assert (output (shell_state (cnt_final w2)) = String "013"%char (String "010"%char
        ("Called " ++ NilZero.string_of_int (Z.to_int (c + 1)) ++ " times")%string)) as Hout2.
  { rewrite <- called_times_text, <- Hc2. reflexivity. }
  exists (cnt_final w2). rewrite Hstep2.
  split; [exact Hrun2|]. split; [exact Hout2|].
  split; [exact Hc2|]. split; [exact Hout2|].
  split; [|reflexivity].
  simpl. rewrite Hc2. rewrite incr_in_range by lia. lia.
Qed.

Lemma cnt_reports_then_increments_witness :
  exists w1,
    completes_after command_cnt (boot "cnt" cmd_cnt) 2 w1 /\
    output (shell_state (command_cnt (boot "cnt" cmd_cnt))) =
      String "013"%char (String "010"%char "Called 0 times") /\
    cnt_cnt (cnt_vars (command_cnt (boot "cnt" cmd_cnt))) = 0 /\
    output (shell_state w1) =
      String "013"%char (String "010"%char "Called 0 times") /\
    cnt_cnt (cnt_vars w1) = 1 /\
    cnt_state (cnt_vars w1) = 0 /\
    forall w2,
      cnt_vars w2 = cnt_vars w1 ->
      command_fp (shell_state w2) = Some cmd_cnt ->
      exists w3,
        completes_after command_cnt w2 2 w3 /\
        output (shell_state (command_cnt w2)) =
          String "013"%char (String "010"%char "Called 1 times") /\
        cnt_cnt (cnt_vars (command_cnt w2)) = 1 /\
        output (shell_state w3) =
          String "013"%char (String "010"%char "Called 1 times") /\
        cnt_cnt (cnt_vars w3) = 2 /\
        cnt_state (cnt_vars w3) = 0.
Proof.
  apply (cnt_reports_then_increments (boot "cnt" cmd_cnt) 0).
  - reflexivity.
  - reflexivity.
  - unfold Int.INT_MIN, Int.INT_MAX. lia.
  - reflexivity.
Defined.

(** ** Completion, for every command function *)

(** the static [state] of a command function, for those that have one *)
Definition state_of (c : command) (w : world) : option Z :=
  match c with
  | cmd_cnt => Some (cnt_state (cnt_vars w))
  | cmd_led_toggle => None
  | cmd_load => Some (load_state (load_vars w))
  | cmd_flash => Some (flash_state (flash_vars w))
  end.

(** the state whose code clears [command_fp] *)
Definition exit_state (c : command) : option Z :=
  match c with
  | cmd_cnt => Some 1
  | cmd_led_toggle => None
  | cmd_load => Some 2
  | cmd_flash => Some 6
  end.

(** a call signals completion when it clears the pointer it was called through *)
Definition signals_completion (c : command) (w : world) : Prop :=
  command_fp (shell_state w) = Some c /\
  command_fp (shell_state (call c w)) = None.

(** the cases of a [switch] on [s]: the values 0 to 7 one by one, and the
    rest, where the switch does nothing; the goals a call that changes no
    pointer closes are closed *)
Ltac switch_cases s :=
  let p := fresh "p" in
  destruct s as [|p|p];
  [ | do 3 (try destruct p as [p|p|]) | ];
  cbn; try congruence.

Lemma cnt_completion (w : world) :
  signals_completion cmd_cnt w ->
  cnt_state (cnt_vars w) = 1 /\
  shell_fp (command_cnt w) = shell_state_output /\
  cnt_state (cnt_vars (command_cnt w)) = 0.
Proof.
  unfold signals_completion, call, command_cnt. intros [Hact Hdone].
  revert Hdone. switch_cases (cnt_state (cnt_vars w)).
  intros _. repeat split.
Qed.

Lemma load_completion (w : world) :
  signals_completion cmd_load w ->
  load_state (load_vars w) = 2 /\
  shell_fp (command_load w) = shell_state_output /\
  load_state (load_vars (command_load w)) = 0.
Proof.
  unfold signals_completion, call, command_load. intros [Hact Hdone].
  revert Hdone. switch_cases (load_state (load_vars w)).
  - destruct (busy (shell_state w) =? 0); cbn; congruence.
  - destruct (load_cnt (load_vars w) =? 500); cbn; [|congruence].
    intros _. repeat split.
Qed.

Lemma flash_completion (D : Z) (w : world) :
  command_fp (shell_state w) = Some cmd_flash ->
  command_fp (shell_state (command_flash D w)) = None ->
  flash_state (flash_vars w) = 6 /\
  shell_fp (command_flash D w) = shell_state_output /\
  flash_state (flash_vars (command_flash D w)) = 0.
Proof.
  unfold command_flash. intros Hact Hdone.
  revert Hdone. switch_cases (flash_state (flash_vars w)).
  - destruct (Libc.sscanf_flash _ _) as [rv arg]. cbn. congruence.
  - intros _. repeat split.
Qed.

(** C7: on the call in which it signals completion, every command function
    leaves [shell_state.command_fp] at 0 and [shell_fp] at
    [shell_state_output], and its static state, when it has one, at 0
    ([command_led_toggle] has none).  The call was made in the exit state of
    the command, so no other state completes; and each command has a state
    (or, without a state machine, a call) that does complete. *)
Theorem completion_postcondition :
  (forall (c : command) (w : world),
     signals_completion c w ->
     command_fp (shell_state (call c w)) = None /\
     shell_fp (call c w) = shell_state_output /\
     (forall s, state_of c (call c w) = Some s -> s = 0) /\
     state_of c w = exit_state c) /\
  (forall c : command,
     exists w, state_of c w = exit_state c /\ signals_completion c w).
Proof.
  split.
  - intros c w H. split; [exact (proj2 H)|].
    destruct c; cbn [call state_of exit_state].
    + destruct (cnt_completion w H) as (H1 & H2 & H3).
      rewrite H1. repeat split; try assumption.
      intros s Hs. injection Hs as <-. exact H3.
    + repeat split. intros s Hs. discriminate Hs.
    + destruct (load_completion w H) as (H1 & H2 & H3).
      rewrite H1. repeat split; try assumption.
      intros s Hs. injection Hs as <-. exact H3.
    + destruct H as [Hact Hdone].
      destruct (flash_completion max_delay w Hact Hdone) as (H1 & H2 & H3).
      rewrite H1. repeat split; try assumption.
      intros s Hs. injection Hs as <-. exact H3.
  - intros [].
    + exists (set_cnt_state 1 (boot "cnt" cmd_cnt)). repeat split.
    + exists (boot "led" cmd_led_toggle). repeat split.
    + exists (set_load_cnt 500 (set_load_state 2 (boot "load" cmd_load))).
      repeat split.
    + exists (set_flash_state 6 (boot "flash" cmd_flash)). repeat split.
Qed.

Lemma completion_postcondition_witness :
  command_fp (shell_state (call cmd_cnt (command_cnt (boot "cnt" cmd_cnt)))) = None /\
  shell_fp (call cmd_cnt (command_cnt (boot "cnt" cmd_cnt))) = shell_state_output /\
  (forall s,
     state_of cmd_cnt (call cmd_cnt (command_cnt (boot "cnt" cmd_cnt))) = Some s ->
     s = 0) /\
  state_of cmd_cnt (command_cnt (boot "cnt" cmd_cnt)) = exit_state cmd_cnt.
Proof.
  apply (proj1 completion_postcondition cmd_cnt (command_cnt (boot "cnt" cmd_cnt))).
  split; reflexivity.
Defined.

(** ** [command_led_toggle] *)

(** C9: one call of [command_led_toggle], in any state, toggles the LED
    pin once, sets [shell_fp] to [shell_state_output] and clears
    [shell_state.command_fp]; the function has no state of its own, touches
    nothing else, and the first call is always the completing one. *)
Theorem led_toggle_completes_in_one_call (w : world) :
  let w' := command_led_toggle w in
  hal_log (led w') = hal_log (led w) ++ [TogglePin] /\
  led_pin (led w') <> led_pin (led w) /\
  shell_fp w' = shell_state_output /\
  command_fp (shell_state w') = None /\
  cnt_vars w' = cnt_vars w /\ load_vars w' = load_vars w /\
  flash_vars w' = flash_vars w /\
  input (shell_state w') = input (shell_state w) /\
  output (shell_state w') = output (shell_state w) /\
  busy (shell_state w') = busy (shell_state w) /\
  state_of cmd_led_toggle w = None /\
  completes_after command_led_toggle w 1 w'.
Proof.
  cbn zeta. repeat split.
  - cbn. destruct (led_pin (led w)); discriminate.
  - apply completes_after_intro. reflexivity.
Qed.

(** ** The command blocks *)

(** C3, as the code has it: in each of the three blocks the count of the
    title entry is the number of entries that follow the title, one less
    than the number of entries in the array. *)
Theorem block_count_is_entries_after_title :
  forall p : block_ptr,
    entry_count (deref p) = Some (physical_entries (deref p) - 1).
Proof. intros []; reflexivity. Qed.

(** C3, as the spec has it, fails: the title of [root_block] says 5 and
    the array has 6 entries, the title among them. *)
Lemma root_block_count_is_not_physical :
  entry_count root_block = Some 5 /\
  physical_entries root_block = 6 /\
  entry_count (deref ptr_root_block)
    <> Some (physical_entries (deref ptr_root_block)).
Proof. repeat split. discriminate. Qed.

(** the entries of a block that are no title *)
Definition after_title (b : list t_shell_block_entry) : list t_shell_block_entry :=
  filter (fun e => negb (is_title e)) b.

(** C4, as the code has it: the root block has 6 entries, one title and 5
    that can be invoked; its count is 5; the entry at index 1 is a submenu
    entry, and the block it leads to has a count that is the number of its
    entries after the title. *)
Theorem root_block_scenario :
  physical_entries root_block = 6 /\
  List.length (filter is_title root_block) = 1%nat /\
  List.length (after_title root_block) = 5%nat /\
  entry_count root_block = Some 5 /\
  exists e b,
    child root_block 1 = Some e /\
    select e = None /\
    descend e = Some b /\
    entry_count (deref b) = Some (physical_entries (deref b) - 1).
Proof.
  repeat split.
  exists (entry "sm1 - submenu example" fp_null (CMD_BLOCK ptr_level_1_block)),
         ptr_level_1_block.
  repeat split.
Qed.

(** C4, as the spec has it, fails: the root block has 6 entries, not 5,
    and the count of the block that entry 1 leads to is 3 for 4 entries. *)
Lemma root_block_scenario_as_specified_fails :
  ~ (physical_entries root_block = 5 /\
     entry_count root_block = Some 5 /\
     exists e b,
       child root_block 1 = Some e /\
       descend e = Some b /\
       entry_count (deref b) = Some (physical_entries (deref b))).
Proof.
  intros (H & _). discriminate H.
Qed.

(** what C8 asks of an entry: [descend] and [select] are not both
    something; the entry has its second field at 0 or its third (so a count
    in the second field does not come with a block either); and a title has
    neither a function nor a block *)
Definition one_kind (e : t_shell_block_entry) : Prop :=
  ~ (descend e <> None /\ select e <> None) /\
  (fp e = fp_null \/ block e = None) /\
  (is_title e = true -> select e = None /\ descend e = None).

(** C8: no entry of any block has both a command function and a block;
    a title entry has neither ([select] and [descend] both answer [None]
    for it). *)
Theorem entry_kinds_exclusive :
  forall p : block_ptr, Forall one_kind (deref p).
Proof.
  assert (forall l f b,
            (f = fp_null \/ b = None) -> one_kind (entry l f b)) as one_entry.
  { unfold one_kind. intros l f b [-> | ->]; cbn.
    - split; [intros [_ H]; apply H; reflexivity |].
      split; [left; reflexivity | discriminate].
    - split; [intros [H _]; apply H; reflexivity |].
      split; [right; reflexivity |].
      destruct f; cbn; intros H; try discriminate H; split; reflexivity. }
  intros []; cbn [deref level_2_block level_1_block root_block];
    repeat (apply Forall_cons;
            [apply one_entry; first [left; reflexivity | right; reflexivity]|]);
    apply Forall_nil.
Qed.

(** * More of the file

    What follows covers the parts of [shell_pfs.c] the properties above do
    not reach: [command_flash] for any argument and any delay,
    [command_load], repeated runs of [command_cnt], the variants of
    [command_cnt] and [command_flash] written without the macros, and the
    shape of the command blocks. *)

(** ** [command_flash]: any number of flashes, any delay *)

Lemma blinks_repeat (n : nat) :
  blinks n = List.concat (repeat [WritePin GPIO_PIN_SET; WritePin GPIO_PIN_RESET] n).
Proof.
  induction n as [|n IH]; [reflexivity|].
  cbn [blinks repeat List.concat]. rewrite IH. reflexivity.
Qed.

(** From state 0, with a text [sscanf] converts to a positive [N] and any
    [int] value of the delay constant, [command_flash] runs to completion;
    to that point the LED pin has been written [N] times on and [N] times
    off, in turn, it is left off, and the static [arg] is back at 0. *)
Theorem flash_blinks_N_times (D : Z) (w : world) (N : Z) :
  Int.in_range D ->
  flash_state (flash_vars w) = 0 ->
  command_fp (shell_state w) = Some cmd_flash ->
  Libc.sscanf_flash (input (shell_state w)) (flash_arg (flash_vars w)) = (1, N) ->
  0 < N ->
  exists (t : nat) (w' : world),
    completes_after (command_flash D) w t w' /\
    hal_log (led w') =
      hal_log (led w) ++
      List.concat (repeat [WritePin GPIO_PIN_SET; WritePin GPIO_PIN_RESET] (Z.to_nat N)) /\
    led_pin (led w') = GPIO_PIN_RESET /\
    flash_arg (flash_vars w') = 0 /\
    flash_state (flash_vars w') = 0.
Proof.
  intros HD Hst Hact Hscan HN.
  exists (flash_ticks D N), (flash_final D w N).
  split; [apply flash_run; try assumption;
          exact (active_not_completed _ _ Hact)|].
  rewrite <- blinks_repeat. unfold flash_final.
  destruct (Z.to_nat N) as [|k] eqn:Hk; [lia|].
  repeat split.
Qed.

Lemma flash_blinks_N_times_witness :
  exists (t : nat) (w' : world),
    completes_after (command_flash max_delay) (boot "flash 0x10" cmd_flash) t w' /\
    hal_log (led w') =
      hal_log (led (boot "flash 0x10" cmd_flash)) ++
      List.concat (repeat [WritePin GPIO_PIN_SET; WritePin GPIO_PIN_RESET] (Z.to_nat 16)) /\
    led_pin (led w') = GPIO_PIN_RESET /\
    flash_arg (flash_vars w') = 0 /\
    flash_state (flash_vars w') = 0.
Proof.
  apply (flash_blinks_N_times max_delay (boot "flash 0x10" cmd_flash) 16).
  - split; discriminate.
  - reflexivity.
  - reflexivity.
  - reflexivity.
  - lia.
Defined.

(** A delay constant of zero or below does not make the delay loops free:
    the decrement comes before the test, so each loop still takes one call,
    and the run takes exactly [5 * N + 2] calls. *)
Theorem flash_nonpositive_delay_ticks (D : Z) (w : world) (N : Z) :
  Int.INT_MIN < D <= 0 ->
  flash_state (flash_vars w) = 0 ->
  command_fp (shell_state w) = Some cmd_flash ->
  Libc.sscanf_flash (input (shell_state w)) (flash_arg (flash_vars w)) = (1, N) ->
  0 < N ->
  exists w',
    completes_after (command_flash D) w (Z.to_nat (5 * N + 2)) w' /\
    flash_delay (flash_vars w') = D - 1.
Proof.
  intros [Hlo Hhi] Hst Hact Hscan HN.
  assert (D <> Int.INT_MIN) as Hne by lia.
  destruct (phase_nonpositive D Hhi Hne) as [Hph Hleft].
  exists (flash_final D w N). split.
  - replace (Z.to_nat (5 * N + 2)) with (flash_ticks D N).
    + apply flash_run; try assumption.
      * unfold Int.in_range, Int.INT_MAX. lia.
      * exact (active_not_completed _ _ Hact).
    + unfold flash_ticks, flash_period. rewrite Hph. lia.
  - unfold flash_final. cbn. exact Hleft.
Qed.

Lemma flash_nonpositive_delay_ticks_witness :
  exists w',
    completes_after (command_flash 0) (boot "flash 3" cmd_flash)
      (Z.to_nat (5 * 3 + 2)) w' /\
    flash_delay (flash_vars w') = 0 - 1.
Proof.
  apply (flash_nonpositive_delay_ticks 0 (boot "flash 3" cmd_flash) 3).
  - unfold Int.INT_MIN. lia.
  - reflexivity.
  - reflexivity.
  - reflexivity.
  - lia.
Defined.

(** ** The static state of a command stays among its cases *)

(** the highest case label of the [switch] of a command *)
Definition last_case (c : command) : Z :=
  match c with
  | cmd_cnt => 1
  | cmd_led_toggle => 0
  | cmd_load => 2
  | cmd_flash => 6
  end.

Definition state_among_cases (c : command) (w : world) : Prop :=
  match state_of c w with
  | Some s => 0 <= s <= last_case c
  | None => True
  end.

(** [switch_cases], keeping what [s] was as the equation [E] *)
Ltac switch_cases_eq s E :=
  let p := fresh "p" in
  destruct s as [|p|p] eqn:E;
  [ | do 3 (try destruct p as [p|p|]) | ];
  cbn; try congruence.

(** a call that changes nothing, made again and again, never completes *)
Lemma run_stuck (f : world -> world) (w : world) :
  f w = w -> completed w = false -> forall n, run f n w = None.
Proof.
  intros Hf Hw n. induction n as [|n IH]; [reflexivity|].
  rewrite run_active; rewrite Hf; [|exact Hw]. rewrite IH. reflexivity.
Qed.

(** Every call of a command function whose static state is one of its case
    labels leaves it at one of its case labels: the state stays in
    [0 .. 1] for [command_cnt], [0 .. 2] for [command_load] and [0 .. 6]
    for [command_flash], whatever the input, the flags and the counters. *)
Theorem state_stays_among_cases (c : command) (w : world) :
  state_among_cases c w -> state_among_cases c (call c w).
Proof.
  unfold state_among_cases.
  destruct c; cbn [state_of last_case call]; [| trivial | |].
  - unfold command_cnt.
    switch_cases_eq (cnt_state (cnt_vars w)) E; try rewrite E; lia.
  - unfold command_load.
    switch_cases_eq (load_state (load_vars w)) E; try rewrite E; try lia.
    + destruct (busy (shell_state w) =? 0); cbn; try rewrite E; lia.
    + destruct (load_cnt (load_vars w) =? 500); cbn; lia.
  - unfold command_flash.
    switch_cases_eq (flash_state (flash_vars w)) E; try rewrite E; try lia.
    + destruct (Libc.sscanf_flash _ _) as [rv arg]. cbn.
      destruct ((rv =? 1) && (arg >? 0)); lia.
    + destruct (Int.decr (flash_arg (flash_vars w)) =? 0); lia.
    + destruct (Int.decr (flash_delay (flash_vars w)) >? 0); lia.
    + destruct (Int.decr (flash_delay (flash_vars w)) >? 0); lia.
Qed.

Lemma state_stays_among_cases_witness :
  state_among_cases cmd_flash (call cmd_flash (boot "flash 2" cmd_flash)).
Proof.
  apply (state_stays_among_cases cmd_flash (boot "flash 2" cmd_flash)).
  cbn. lia.
Defined.

(** The switches have no [default]: with a static state that is no case
    label, a call of [command_cnt], [command_load] or [command_flash] changes
    nothing at all, so the command never completes from there. *)
Theorem state_without_case_is_stuck (c : command) (w : world) (s : Z) :
  state_of c w = Some s ->
  s < 0 \/ last_case c < s ->
  command_fp (shell_state w) = Some c ->
  call c w = w /\ forall n, run (call c) n w = None.
Proof.
  intros Hs Hout Hact.
  assert (call c w = w) as Hsame.
  { destruct c; cbn [state_of last_case call] in *;
      try discriminate Hs; injection Hs as Hs; subst s.
    - unfold command_cnt. revert Hout.
      switch_cases (cnt_state (cnt_vars w)); lia.
    - unfold command_load. revert Hout.
      switch_cases (load_state (load_vars w)); lia.
    - unfold command_flash. revert Hout.
      switch_cases (flash_state (flash_vars w)); lia. }
  split; [exact Hsame|].
  apply run_stuck; [exact Hsame|exact (active_not_completed _ _ Hact)].
Qed.

Lemma state_without_case_is_stuck_witness :
  call cmd_flash (set_flash_state 7 (boot "flash 2" cmd_flash)) =
    set_flash_state 7 (boot "flash 2" cmd_flash) /\
  forall n, run (call cmd_flash) n (set_flash_state 7 (boot "flash 2" cmd_flash)) = None.
Proof.
  apply (state_without_case_is_stuck cmd_flash
           (set_flash_state 7 (boot "flash 2" cmd_flash)) 7).
  - reflexivity.
  - right. cbn. lia.
  - reflexivity.
Defined.

(** ** [command_load] *)

(** In state 0 [command_load] polls [shell_state.busy]: while the flag is
    not 0 a call changes nothing, so as long as the flag stays up the
    command neither moves on nor completes, however often it is called. *)
Theorem load_waits_while_busy (w : world) :
  load_state (load_vars w) = 0 ->
  busy (shell_state w) <> 0 ->
  command_fp (shell_state w) = Some cmd_load ->
  command_load w = w /\ forall n, run command_load n w = None.
Proof.
  intros Hst Hbusy Hact.
  assert (command_load w = w) as Hsame.
  { unfold command_load. rewrite Hst.
    replace (busy (shell_state w) =? 0) with false
      by (symmetry; apply Z.eqb_neq; exact Hbusy).
    reflexivity. }
  split; [exact Hsame|].
  apply run_stuck; [exact Hsame|exact (active_not_completed _ _ Hact)].
Qed.

(** the state [w] with the flag [busy] at [b] *)
Definition set_busy (b : Z) (w : world) : world :=
  {| shell_state := {| input := input (shell_state w);
                       output := output (shell_state w);
                       busy := b;
                       command_fp := command_fp (shell_state w) |};
     shell_fp := shell_fp w; cnt_vars := cnt_vars w; load_vars := load_vars w;
     flash_vars := flash_vars w; led := led w |}.

Lemma load_waits_while_busy_witness :
  command_load (set_busy 1 (boot "load" cmd_load)) =
    set_busy 1 (boot "load" cmd_load) /\
  forall n, run command_load n (set_busy 1 (boot "load" cmd_load)) = None.
Proof.
  apply (load_waits_while_busy (set_busy 1 (boot "load" cmd_load))).
  - reflexivity.
  - discriminate.
  - reflexivity.
Defined.

(** *** The loop of state 2 *)

Lemma wrap64_add_l (a b : Z) : Int.wrap64 (Int.wrap64 a + b) = Int.wrap64 (a + b).
Proof.
  unfold Int.wrap64, Int.wrap_bits. f_equal.
  replace ((a + 2 ^ (64 - 1)) mod 2 ^ 64 - 2 ^ (64 - 1) + b + 2 ^ (64 - 1))
    with ((a + 2 ^ (64 - 1)) mod 2 ^ 64 + b) by ring.
  rewrite Z.add_mod_idemp_l by (apply Z.pow_nonzero; lia).
  f_equal. ring.
Qed.

Lemma wrap64_in_range (a : Z) :
  - 2 ^ 63 <= a < 2 ^ 63 -> Int.wrap64 a = a.
Proof.
  unfold Int.wrap64, Int.wrap_bits.
  change (2 ^ (64 - 1)) with 9223372036854775808.
  change (2 ^ 63) with 9223372036854775808.
  change (2 ^ 64) with 18446744073709551616.
  intros H. rewrite Z.mod_small; lia.
Qed.

Lemma wrap64_range (a : Z) : - 2 ^ 63 <= Int.wrap64 a < 2 ^ 63.
Proof.
  unfold Int.wrap64, Int.wrap_bits.
  change (2 ^ (64 - 1)) with 9223372036854775808.
  change (2 ^ 63) with 9223372036854775808.
  change (2 ^ 64) with 18446744073709551616.
  pose proof (Z.mod_pos_bound (a + 9223372036854775808) 18446744073709551616
                eq_refl).
  lia.
Qed.

(** the sum of the integers from [k] to 9999 *)
Definition sum_from (k : Z) : Z := (10000 - k) * (k + 9999) / 2.

Lemma sum_from_step (k : Z) : sum_from k = k + sum_from (k + 1).
Proof.
  unfold sum_from.
  replace ((10000 - k) * (k + 9999))
    with (k * 2 + (10000 - (k + 1)) * (k + 1 + 9999)) by ring.
  apply Z.div_add_l. discriminate.
Qed.

Lemma load_loop_from (cnt : Z) :
  0 <= cnt <= 500 ->
  forall (n : nat) (k accu : Z),
    0 <= k ->
    k + Z.of_nat (S n) = 10000 ->
    load_loop (S n) k cnt accu = Int.wrap64 (accu + sum_from k * cnt).
Proof.
  intros Hc.
  assert (forall k, 0 <= k < 10000 -> Int.mul k cnt = k * cnt) as Hmul.
  { intros k Hk. apply wrap_in_range.
    unfold Int.in_range, Int.INT_MIN, Int.INT_MAX. nia. }
  assert (forall k, 0 <= k < 10000 -> Int.incr k = k + 1) as Hincr.
  { intros k Hk. apply incr_in_range. unfold Int.INT_MIN, Int.INT_MAX. lia. }
  induction n as [|n IH]; intros k accu Hk Hn.
  - assert (k = 9999) as -> by lia. cbn [load_loop].
    replace (9999 <? 10000) with true by reflexivity.
    rewrite Hmul by lia. reflexivity.
  - remember (S n) as m eqn:Hm. cbn [load_loop].
    replace (k <? 10000) with true by (symmetry; apply Z.ltb_lt; lia).
    rewrite Hmul, Hincr by lia.
    rewrite IH by lia.
    rewrite wrap64_add_l. f_equal. rewrite (sum_from_step k). ring.
Qed.

Lemma load_loop_total (cnt accu : Z) :
  0 <= cnt <= 500 ->
  load_loop (Z.to_nat 10000) 0 cnt accu = Int.wrap64 (accu + 49995000 * cnt).
Proof.
  intros Hc.
  destruct (Z.to_nat 10000) as [|n] eqn:Hn; [discriminate Hn|].
  rewrite (load_loop_from cnt Hc n 0 accu) by lia.
  reflexivity.
Qed.

(** The time-wasting loop of state 2, [for (k = 0; k < 10000; k++) accu +=
    k * cnt;], adds [49995000 * cnt] to [accu], in 64-bit arithmetic, for
    every value of [cnt] the command can have there; no product [k * cnt]
    leaves the range of [int] on the way. *)
Theorem load_loop_adds (cnt accu : Z) :
  0 <= cnt <= 500 ->
  load_loop (Z.to_nat 10000) 0 cnt accu = Int.wrap64 (accu + 49995000 * cnt) /\
  forall k, 0 <= k < 10000 -> Int.mul k cnt = k * cnt.
Proof.
  intros Hc. split; [exact (load_loop_total cnt accu Hc)|].
  intros k Hk. apply wrap_in_range.
  unfold Int.in_range, Int.INT_MIN, Int.INT_MAX. nia.
Qed.

Lemma load_loop_adds_witness :
  load_loop (Z.to_nat 10000) 0 3 7 = Int.wrap64 (7 + 49995000 * 3) /\
  forall k, 0 <= k < 10000 -> Int.mul k 3 = k * 3.
Proof.
  apply (load_loop_adds 3 7). lia.
Defined.

(** *** A whole run *)

(** the state [w] with the statics of [command_load], the output buffer and
    [shell_fp] replaced *)
Definition load_at (w : world) (v : load_statics) (out : string) (p : fn_ptr)
  : world :=
  set_load_vars v (set_shell_fp p (set_output out w)).

Definition lvars (s c a : Z) : load_statics :=
  {| load_state := s; load_cnt := c; load_accu := a |}.

Lemma load_at_self (w : world) :
  load_at w (load_vars w) (output (shell_state w)) (shell_fp w) = w.
Proof. destruct w as [[] ? ? ? ? ?]; reflexivity. Qed.

Lemma lvars_self (v : load_statics) :
  lvars (load_state v) (load_cnt v) (load_accu v) = v.
Proof. destruct v; reflexivity. Qed.

(** what one pass through states 0, 1 and 2 adds to [accu] when [cnt] was
    [c] at its start and the pass does not complete *)
Definition accu_after_pass (c a : Z) : Z := Int.wrap64 (a + 49995000 * (c + 1)).

(** [accu] at completion, for a run started with [cnt] at [c] and [accu] at
    [a]: the passes with [cnt] from [c + 1] to 499 have each added
    [49995000 * cnt] *)
Definition accu_at_completion (c a : Z) : Z :=
  Int.wrap64 (a + 24997500 * (249500 - c * (c + 1))).

Section LoadRun.

Variable w : world.
Hypothesis Hidle : busy (shell_state w) = 0.
Hypothesis Hw : completed w = false.

Lemma load_step_0 (c a : Z) (out : string) (p : fn_ptr) :
  command_load (load_at w (lvars 0 c a) out p) = load_at w (lvars 1 c a) out p.
Proof.
  unfold command_load. cbn. rewrite Hidle. reflexivity.
Qed.

Lemma load_step_1 (c a : Z) (out : string) (p : fn_ptr) :
  command_load (load_at w (lvars 1 c a) out p) =
  load_at w (lvars 2 (Int.incr c) a)
    (values_line c (Int.wrap (Z.quot a 10000))) shell_state_output.
Proof. reflexivity. Qed.

Lemma load_step_2_again (c a : Z) (out : string) (p : fn_ptr) :
  c <> 500 ->
  command_load (load_at w (lvars 2 c a) out p) =
  load_at w (lvars 0 c (load_loop (Z.to_nat 10000) 0 c a)) out p.
Proof.
  intros Hc. unfold command_load. cbn.
  replace (c =? 500) with false by (symmetry; apply Z.eqb_neq; exact Hc).
  reflexivity.
Qed.

Lemma load_step_2_done (a : Z) (out : string) (p : fn_ptr) :
  command_load (load_at w (lvars 2 500 a) out p) =
  set_command_fp None (load_at w (lvars 0 0 a) out shell_state_output).
Proof. reflexivity. Qed.

(** a pass that does not complete: three calls *)
Lemma load_pass (c a : Z) (out : string) (p : fn_ptr) (n : nat) :
  0 <= c < 499 ->
  run command_load (3 + n) (load_at w (lvars 0 c a) out p) =
  later 3
    (run command_load n
       (load_at w (lvars 0 (c + 1) (accu_after_pass c a))
          (values_line c (Int.wrap (Z.quot a 10000))) shell_state_output)).
Proof.
  intros Hc. change (3 + n)%nat with (S (S (S n))).
  rewrite run_active; rewrite load_step_0; [|exact Hw].
  rewrite run_active; rewrite load_step_1; [|exact Hw].
  rewrite incr_in_range by (unfold Int.INT_MIN, Int.INT_MAX; lia).
  rewrite run_active; rewrite load_step_2_again by lia; [|exact Hw].
  rewrite (load_loop_total (c + 1) a) by lia.
  rewrite !later_later. reflexivity.
Qed.

(** the last pass: three calls, the third completes *)
Lemma load_last_pass (a : Z) (out : string) (p : fn_ptr) :
  run command_load 3 (load_at w (lvars 0 499 a) out p) =
  Some (3%nat,
        set_command_fp None
          (load_at w (lvars 0 0 a)
             (values_line 499 (Int.wrap (Z.quot a 10000))) shell_state_output)).
Proof.
  rewrite run_active; rewrite load_step_0; [|exact Hw].
  rewrite run_active; rewrite load_step_1; [|exact Hw].
  change (Int.incr 499) with 500.
  rewrite run_done; rewrite load_step_2_done; reflexivity.
Qed.

Lemma load_passes :
  forall (m : nat) (c a : Z) (out : string) (p : fn_ptr),
    0 <= c ->
    c + Z.of_nat m = 499 ->
    - 2 ^ 63 <= a < 2 ^ 63 ->
    run command_load (3 * m + 3) (load_at w (lvars 0 c a) out p) =
    Some ((3 * m + 3)%nat,
          set_command_fp None
            (load_at w (lvars 0 0 (accu_at_completion c a))
               (values_line 499
                  (Int.wrap (Z.quot (accu_at_completion c a) 10000)))
               shell_state_output)).
Proof.
  induction m as [|m IH]; intros c a out p Hc Hm Ha.
  - assert (c = 499) as -> by lia.
    change (3 * 0 + 3)%nat with 3%nat. rewrite load_last_pass.
    unfold accu_at_completion.
    change (249500 - 499 * (499 + 1)) with 0.
    rewrite Z.mul_0_r, Z.add_0_r, (wrap64_in_range a Ha). reflexivity.
  - replace (3 * S m + 3)%nat with (3 + (3 * m + 3))%nat by lia.
    rewrite load_pass by lia.
    rewrite IH; [|lia|lia|apply wrap64_range].
    assert (accu_at_completion (c + 1) (accu_after_pass c a)
            = accu_at_completion c a) as ->.
    { unfold accu_at_completion, accu_after_pass.
      rewrite wrap64_add_l. f_equal. ring. }
    reflexivity.
Qed.

End LoadRun.

(** a wrapped value is the value up to a multiple of the modulus, and lies
    in the range of its type *)
Lemma wrap_bits_congruent (bits z : Z) :
  0 < bits -> (Int.wrap_bits bits z - z) mod 2 ^ bits = 0.
Proof.
  intros Hb. unfold Int.wrap_bits.
  assert (2 ^ bits <> 0) as Hm by (apply Z.pow_nonzero; lia).
  rewrite (Z.mod_eq (z + 2 ^ (bits - 1)) (2 ^ bits)) by exact Hm.
  replace (z + 2 ^ (bits - 1) -
           2 ^ bits * ((z + 2 ^ (bits - 1)) / 2 ^ bits) - 2 ^ (bits - 1) - z)
    with (- ((z + 2 ^ (bits - 1)) / 2 ^ bits) * 2 ^ bits) by ring.
  apply Z.mod_mul. exact Hm.
Qed.

Lemma wrap_range (z : Z) : - 2 ^ 31 <= Int.wrap z < 2 ^ 31.
Proof.
  unfold Int.wrap, Int.wrap_bits.
  change (2 ^ (32 - 1)) with 2147483648.
  change (2 ^ 31) with 2147483648.
  change (2 ^ 32) with 4294967296.
  pose proof (Z.mod_pos_bound (z + 2147483648) 4294967296 eq_refl).
  lia.
Qed.

(** A run of [command_load] from state 0, with the counter at [c] below
    500 and [busy] reading 0, takes three calls for every value of the
    counter from [c] to 499, that is [3 * (500 - c)] calls, 1500 from the
    initial state.  It completes with the counter back at 0 and the state at
    0, and has added [49995000 * cnt] to [accu] for every [cnt] from [c + 1]
    to 499: [accu] is a [long long], the sum taken modulo [2 ^ 64].  It
    leaves in the output buffer the line for 499, as text: carriage return,
    line feed, "Values : 499 " and, in decimal, the number [l] that the
    final [accu] divided by 10000 gives as a [long] (32 bits, the quotient
    taken modulo [2 ^ 32]). *)
Theorem load_run (w : world) (c : Z) :
  load_state (load_vars w) = 0 ->
  load_cnt (load_vars w) = c ->
  0 <= c < 500 ->
  - 2 ^ 63 <= load_accu (load_vars w) < 2 ^ 63 ->
  busy (shell_state w) = 0 ->
  command_fp (shell_state w) = Some cmd_load ->
  exists (w' : world) (l : Z),
    completes_after command_load w (Z.to_nat (3 * (500 - c))) w' /\
    load_cnt (load_vars w') = 0 /\
    load_state (load_vars w') = 0 /\
    load_accu (load_vars w') = accu_at_completion c (load_accu (load_vars w)) /\
    - 2 ^ 63 <= load_accu (load_vars w') < 2 ^ 63 /\
    (load_accu (load_vars w') -
     (load_accu (load_vars w) + 24997500 * (249500 - c * (c + 1)))) mod 2 ^ 64 = 0 /\
    l = Int.wrap (Z.quot (load_accu (load_vars w')) 10000) /\
    - 2 ^ 31 <= l < 2 ^ 31 /\
    (l - Z.quot (load_accu (load_vars w')) 10000) mod 2 ^ 32 = 0 /\
    output (shell_state w') =
      String "013"%char
        (String "010"%char
           ("Values : 499 " ++ NilZero.string_of_int (Z.to_int l))%string) /\
    shell_fp w' = shell_state_output /\
    command_fp (shell_state w') = None.
Proof.
  intros Hst Hc Hrange Ha Hidle Hact.
  pose proof (active_not_completed _ _ Hact) as Hw.
  assert (run command_load (Z.to_nat (3 * (500 - c))) w =
          Some (Z.to_nat (3 * (500 - c)),
                set_command_fp None
                  (load_at w
                     (lvars 0 0 (accu_at_completion c (load_accu (load_vars w))))
                     (values_line 499
                        (Int.wrap
                           (Z.quot
                              (accu_at_completion c (load_accu (load_vars w)))
                              10000)))
                     shell_state_output))) as Hrun.
  { rewrite <- (load_at_self w) at 1.
    rewrite <- (lvars_self (load_vars w)). rewrite Hst, Hc.
    replace (Z.to_nat (3 * (500 - c))) with (3 * Z.to_nat (499 - c) + 3)%nat
      by lia.
    apply (load_passes w Hidle Hw); [lia|lia|exact Ha]. }
  eexists. eexists.
  split; [apply completes_after_intro; exact Hrun|].
  cbn [load_vars load_cnt load_state load_accu set_command_fp load_at
       set_load_vars set_shell_fp set_output shell_state output shell_fp
       command_fp lvars].
  split; [reflexivity|]. split; [reflexivity|]. split; [reflexivity|].
  split; [apply wrap64_range|].
  split; [exact (wrap_bits_congruent 64 _ eq_refl)|].
  split; [reflexivity|].
  split; [apply wrap_range|].
  split; [exact (wrap_bits_congruent 32 _ eq_refl)|].
  repeat split.
Qed.

Lemma load_run_witness :
  exists w',
    completes_after command_load (boot "load" cmd_load)
      (Z.to_nat (3 * (500 - 0))) w' /\
    load_cnt (load_vars w') = 0 /\
    load_state (load_vars w') = 0 /\
    load_accu (load_vars w') = 6236876250000 /\
    output (shell_state w') =
      String "013"%char (String "010"%char "Values : 499 623687625") /\
    shell_fp w' = shell_state_output /\
    command_fp (shell_state w') = None.
Proof.
  destruct (load_run (boot "load" cmd_load) 0)
    as (w' & l & Hrun & Hcnt & Hst & Haccu & _ & _ & Hl & _ & _ & Hout & Hfp & Hcmd).
  - reflexivity.
  - reflexivity.
  - lia.
  - cbn. lia.
  - reflexivity.
  - reflexivity.
  - exists w'. rewrite Haccu in Hl. subst l.
    split; [exact Hrun|]. split; [exact Hcnt|]. split; [exact Hst|].
    split; [exact Haccu|]. split; [exact Hout|].
    split; [exact Hfp|exact Hcmd].
Defined.

Example accu_after_first_run : accu_at_completion 0 0 = 6236876250000.
Proof. reflexivity. Qed.

(** ** [command_cnt], run after run *)





(** The line [command_cnt] writes in state 0 tells the count: when two
    calls in state 0 leave the same text in the output buffer, the counters
    were the same. *)
Theorem cnt_line_tells_count (w1 w2 : world) :
  cnt_state (cnt_vars w1) = 0 ->
  cnt_state (cnt_vars w2) = 0 ->
  output (shell_state (command_cnt w1)) = output (shell_state (command_cnt w2)) ->
  cnt_cnt (cnt_vars w1) = cnt_cnt (cnt_vars w2).
Proof.
  unfold command_cnt. intros -> -> H.
  change (called_times (cnt_cnt (cnt_vars w1)) =
          called_times (cnt_cnt (cnt_vars w2))) in H.
  exact (called_times_inj _ _ H).
Qed.

Lemma cnt_line_tells_count_witness :
  cnt_cnt (cnt_vars (set_cnt_cnt 41 (boot "cnt" cmd_cnt))) =
  cnt_cnt (cnt_vars (set_cnt_cnt 41 (boot "cnt x" cmd_cnt))).
Proof.
  apply (cnt_line_tells_count (set_cnt_cnt 41 (boot "cnt" cmd_cnt))
           (set_cnt_cnt 41 (boot "cnt x" cmd_cnt))); reflexivity.
Defined.

(** ** [command_cnt] without the macros *)

(** the variant under [#ifndef USING_STATE_MACHINE_MACROS]: the same statics,
    the [switch] written out *)
Definition command_cnt_explicit (w : world) : world :=
  match cnt_state (cnt_vars w) with
  | 0 =>
      w |> set_output (called_times (cnt_cnt (cnt_vars w)))
        |> set_shell_fp shell_state_output
        |> set_cnt_state 1
  | 1 =>
      w |> set_cnt_cnt (Int.incr (cnt_cnt (cnt_vars w)))
        |> set_cnt_state 0
        |> set_command_fp None
        |> set_shell_fp shell_state_output
  | _ => w
  end.

(** The two variants of [command_cnt] are the same function: [STATE_MACHINE],
    [STATE] and [RETURN] expand to what the hand-written [switch] does, in
    every state and for every value of the rest. *)
Theorem command_cnt_variants_agree (w : world) :
  command_cnt_explicit w = command_cnt w.
Proof.
  unfold command_cnt_explicit, command_cnt.
  switch_cases (cnt_state (cnt_vars w)); reflexivity.
Qed.

(** ** [command_flash] without the macros *)

Section FlashExplicit.

(** [HAL_GPIO_WritePin (GPIOB, UCPD_DBn_Pin|LED_BLUE_Pin, s)]: this variant
    writes pins of port B by name; what that does to the board is left
    open *)
Variable write_pins : GPIO_PinState -> world -> world.

(** [const int max_delay] *)
Variable D : Z.

(** [state++] *)
Definition next_flash_state (w : world) : world :=
  set_flash_state (Int.incr (flash_state (flash_vars w))) w.

(** the variant under [#ifndef USING_STATE_MACHINE_MACROS] *)
Definition command_flash_explicit (w : world) : world :=
  match flash_state (flash_vars w) with
  | 0 =>
      let '(rv, arg) :=
        Libc.sscanf_flash (input (shell_state w)) (flash_arg (flash_vars w)) in
      let w := set_flash_arg arg w in
      if (rv =? 1) && (arg >? 0) then next_flash_state w
      else set_flash_state 6 w
  | 1 =>
      w |> write_pins GPIO_PIN_SET
        |> set_flash_delay D
        |> next_flash_state
  | 2 =>
      if flash_delay (flash_vars w) >? 0
      then set_flash_delay (Int.decr (flash_delay (flash_vars w))) w
      else next_flash_state w
  | 3 =>
      w |> write_pins GPIO_PIN_RESET
        |> set_flash_delay D
        |> next_flash_state
  | 4 =>
      if flash_delay (flash_vars w) >? 0
      then set_flash_delay (Int.decr (flash_delay (flash_vars w))) w
      else next_flash_state w
  | 5 =>
      let w := set_flash_arg (Int.decr (flash_arg (flash_vars w))) w in
      if flash_arg (flash_vars w) =? 0 then next_flash_state w
      else set_flash_state 1 w
  | 6 =>
      w |> set_flash_state 0
        |> set_shell_fp shell_state_output
        |> set_command_fp None
  | _ => w
  end.

(** writing the pins touches neither the statics of the command nor
    [shell_state] *)
Definition pins_apart : Prop :=
  forall s w,
    flash_vars (write_pins s w) = flash_vars w /\
    shell_state (write_pins s w) = shell_state w.

Hypothesis Hpins : pins_apart.
Hypothesis HD : 0 <= D <= Int.INT_MAX.

Let f := command_flash_explicit.

Lemma completed_write_pins (s : GPIO_PinState) (w : world) :
  completed (write_pins s w) = completed w.
Proof.
  unfold completed. rewrite (proj2 (Hpins s w)). reflexivity.
Qed.

Lemma explicit_step_delay (u : world) (s a d : Z) :
  delay_state s ->
  f (set_flash_vars (fvars s a d) u) =
  if d >? 0 then set_flash_vars (fvars s a (Int.decr d)) u
  else set_flash_vars (fvars (s + 1) a d) u.
Proof.
  intros [-> | ->]; unfold f, command_flash_explicit, next_flash_state; cbn;
    destruct (d >? 0); reflexivity.
Qed.

(** a delay loop: [d] calls count [delay] down, one more leaves the state *)
Lemma explicit_delay_loop (u : world) (s a : Z) (n : nat) :
  delay_state s ->
  completed u = false ->
  forall k : nat,
    Z.of_nat k <= Int.INT_MAX ->
    run f (S k + n) (set_flash_vars (fvars s a (Z.of_nat k)) u) =
    later (S k) (run f n (set_flash_vars (fvars (s + 1) a 0) u)).
Proof.
  intros Hs Hu k. induction k as [|k IH]; intros Hk.
  - change (1 + n)%nat with (S n).
    rewrite run_active; rewrite (explicit_step_delay u s a _ Hs);
      [reflexivity|exact Hu].
  - change (S (S k) + n)%nat with (S (S k + n)).
    assert (f (set_flash_vars (fvars s a (Z.of_nat (S k))) u)
            = set_flash_vars (fvars s a (Z.of_nat k)) u) as Hstep.
    { rewrite (explicit_step_delay u s a _ Hs).
      replace (Z.of_nat (S k) >? 0) with true
        by (symmetry; apply Z.gtb_lt; lia).
      rewrite decr_in_range by (unfold Int.INT_MIN; lia).
      replace (Z.of_nat (S k) - 1) with (Z.of_nat k) by lia. reflexivity. }
    rewrite run_active; rewrite Hstep; [|exact Hu].
    rewrite IH by lia. rewrite later_later. reflexivity.
Qed.

Lemma explicit_delay_loop_from (u : world) (s a d : Z) (n : nat) :
  delay_state s ->
  completed u = false ->
  0 <= d <= Int.INT_MAX ->
  run f (S (Z.to_nat d) + n) (set_flash_vars (fvars s a d) u) =
  later (S (Z.to_nat d)) (run f n (set_flash_vars (fvars (s + 1) a 0) u)).
Proof.
  intros Hs Hu Hd.
  pose proof (explicit_delay_loop u s a n Hs Hu (Z.to_nat d)) as H.
  rewrite Z2Nat.id in H by lia. apply H. lia.
Qed.

(** calls from state 1 back to state 1, or on to state 6 *)
Definition explicit_period : nat := (2 * Z.to_nat D + 5)%nat.

Lemma explicit_one_flash (u : world) (a d : Z) :
  completed u = false ->
  Int.INT_MIN < a <= Int.INT_MAX ->
  exists u',
    completed u' = false /\
    forall n,
      run f (explicit_period + n) (set_flash_vars (fvars 1 a d) u) =
      later explicit_period
        (run f n (set_flash_vars (fvars (if a - 1 =? 0 then 6 else 1) (a - 1) 0) u')).
Proof.
  intros Hu Ha.
  set (u1 := write_pins GPIO_PIN_SET (set_flash_vars (fvars 1 a d) u)).
  set (u2 := write_pins GPIO_PIN_RESET (set_flash_vars (fvars 3 a 0) u1)).
  assert (completed u1 = false) as Hu1
      by (unfold u1; rewrite completed_write_pins; exact Hu).
  assert (completed u2 = false) as Hu2
      by (unfold u2; rewrite completed_write_pins; exact Hu1).
  assert (f (set_flash_vars (fvars 1 a d) u) = set_flash_vars (fvars 2 a D) u1)
    as Hstep1.
  { unfold f, command_flash_explicit, next_flash_state. cbn.
    fold u1. unfold set_flash_state, set_flash_delay. cbn.
    unfold u1 at 1 2 3. rewrite (proj1 (Hpins _ _)). reflexivity. }
  assert (f (set_flash_vars (fvars 3 a 0) u1) = set_flash_vars (fvars 4 a D) u2)
    as Hstep3.
  { unfold f, command_flash_explicit, next_flash_state. cbn.
    fold u2. unfold set_flash_state, set_flash_delay. cbn.
    unfold u2 at 1 2 3. rewrite (proj1 (Hpins _ _)). reflexivity. }
  assert (f (set_flash_vars (fvars 5 a 0) u2)
          = set_flash_vars (fvars (if a - 1 =? 0 then 6 else 1) (a - 1) 0) u2)
    as Hstep5.
  { unfold f, command_flash_explicit, next_flash_state. cbn.
    rewrite decr_in_range by exact Ha.
    destruct (a - 1 =? 0); reflexivity. }
  exists u2. split; [exact Hu2|]. intros n.
  unfold explicit_period.
  replace (2 * Z.to_nat D + 5 + n)%nat
    with (S (S (Z.to_nat D) + S (S (Z.to_nat D) + S n)))%nat by lia.
  rewrite run_active; rewrite Hstep1; [|exact Hu1].
  rewrite (explicit_delay_loop_from u1 2 a D _ (or_introl eq_refl) Hu1 HD).
  change (2 + 1) with 3.
  rewrite run_active; rewrite Hstep3; [|exact Hu2].
  rewrite (explicit_delay_loop_from u2 4 a D _ (or_intror eq_refl) Hu2 HD).
  change (4 + 1) with 5.
  rewrite run_active; rewrite Hstep5; [|exact Hu2].
  rewrite !later_later. f_equal. lia.
Qed.

Lemma explicit_all_flashes :
  forall (k : nat) (u : world) (d : Z),
    completed u = false ->
    Z.of_nat (S k) <= Int.INT_MAX ->
    exists u',
      completed u' = false /\
      forall n,
        run f (S k * explicit_period + n)
          (set_flash_vars (fvars 1 (Z.of_nat (S k)) d) u) =
        later (S k * explicit_period)
          (run f n (set_flash_vars (fvars 6 0 0) u')).
Proof.
  induction k as [|k IH]; intros u d Hu Hk.
  - destruct (explicit_one_flash u (Z.of_nat 1) d Hu) as (u' & Hu' & Hrun);
      [unfold Int.INT_MIN; lia|].
    exists u'. split; [exact Hu'|]. intros n.
    replace (1 * explicit_period)%nat with explicit_period by lia.
    rewrite Hrun. reflexivity.
  - destruct (explicit_one_flash u (Z.of_nat (S (S k))) d Hu)
      as (u1 & Hu1 & Hrun1); [unfold Int.INT_MIN; lia|].
    destruct (IH u1 0 Hu1) as (u' & Hu' & Hrun); [lia|].
    exists u'. split; [exact Hu'|]. intros n.
    replace (S (S k) * explicit_period + n)%nat
      with (explicit_period + (S k * explicit_period + n))%nat by lia.
    rewrite Hrun1.
    replace (Z.of_nat (S (S k)) - 1) with (Z.of_nat (S k)) by lia.
    replace (Z.of_nat (S k) =? 0) with false
      by (symmetry; apply Z.eqb_neq; lia).
    rewrite Hrun, later_later. reflexivity.
Qed.

Lemma set_flash_vars_self (w : world) : set_flash_vars (flash_vars w) w = w.
Proof. destruct w; reflexivity. Qed.

(** the run of this variant from state 0, call by call *)
Lemma flash_explicit_run (w : world) (N : Z) :
  flash_state (flash_vars w) = 0 ->
  command_fp (shell_state w) = Some cmd_flash ->
  Libc.sscanf_flash (input (shell_state w)) (flash_arg (flash_vars w)) = (1, N) ->
  0 < N ->
  exists w',
    completes_after command_flash_explicit w (Z.to_nat (N * (2 * D + 5) + 2)) w' /\
    flash_vars w' = fvars 0 0 0 /\
    shell_fp w' = shell_state_output /\
    command_fp (shell_state w') = None.
Proof.
  intros Hst Hact Hscan HN.
  pose proof (active_not_completed _ _ Hact) as Hw.
  pose proof (sscanf_flash_in_range _ _ _ Hscan) as [_ Hhi].
  assert (f w = set_flash_vars (fvars 1 N (flash_delay (flash_vars w))) w)
    as Hstep0.
  { unfold f, command_flash_explicit, next_flash_state.
    rewrite Hst, Hscan.
    replace ((1 =? 1) && (N >? 0)) with true
      by (symmetry; apply andb_true_intro; split;
          [reflexivity | apply Z.gtb_lt; lia]).
    cbn. rewrite Hst. reflexivity. }
  destruct (Z.to_nat N) as [|k] eqn:Hk; [lia|].
  assert (N = Z.of_nat (S k)) as HNk by lia.
  destruct (explicit_all_flashes k w (flash_delay (flash_vars w)) Hw)
    as (u' & Hu' & Hrun); [lia|].
  exists (set_command_fp None
            (set_shell_fp shell_state_output
               (set_flash_vars (fvars 0 0 0) u'))).
  split; [|repeat split].
  apply completes_after_intro.
  replace (Z.to_nat (N * (2 * D + 5) + 2))
    with (S (S k * explicit_period + 1))%nat
    by (unfold explicit_period; nia).
  fold f. rewrite run_active; rewrite Hstep0; [|exact Hw].
  rewrite HNk, Hrun.
  rewrite run_done; [|reflexivity].
  cbn [later]. f_equal; f_equal; lia.
Qed.

End FlashExplicit.

(** the value this variant is written with *)
Definition max_delay_explicit : Z := 100000.

(** The variant of [command_flash] without the macros tests [delay] before
    it decrements, so each delay loop takes [D + 1] calls: from state 0, with
    a text [sscanf] converts to a positive [N] and a delay constant [D] from
    0 up, it completes after exactly [N * (2 * D + 5) + 2] calls and leaves
    its statics at 0, whatever the write to the pins of port B does beside
    the statics and [shell_state].  From the same state the variant with the
    macros completes after [N * (2 * D + 3) + 2] calls when [D] is positive,
    [2 * N] calls earlier, and after [5 * N + 2] calls when [D] is 0, the
    same number as this variant. *)
Theorem flash_explicit_completes_after_exact_ticks
        (write_pins : GPIO_PinState -> world -> world) (D : Z)
        (w : world) (N : Z) :
  pins_apart write_pins ->
  0 <= D <= Int.INT_MAX ->
  flash_state (flash_vars w) = 0 ->
  command_fp (shell_state w) = Some cmd_flash ->
  Libc.sscanf_flash (input (shell_state w)) (flash_arg (flash_vars w)) = (1, N) ->
  0 < N ->
  exists (w_explicit w_macros : world) (t_macros : nat),
    completes_after (command_flash_explicit write_pins D) w
      (Z.to_nat (N * (2 * D + 5) + 2)) w_explicit /\
    flash_vars w_explicit = fvars 0 0 0 /\
    shell_fp w_explicit = shell_state_output /\
    command_fp (shell_state w_explicit) = None /\
    completes_after (command_flash D) w t_macros w_macros /\
    (0 < D -> Z.of_nat t_macros = N * (2 * D + 3) + 2) /\
    (D = 0 -> Z.of_nat t_macros = 5 * N + 2).
Proof.
  intros Hpins HD Hst Hact Hscan HN.
  destruct (flash_explicit_run write_pins D Hpins HD w N Hst Hact Hscan HN)
    as (we & Hrun & Hvars & Hfp & Hcmd).
  exists we, (flash_final D w N), (flash_ticks D N).
  split; [exact Hrun|]. split; [exact Hvars|].
  split; [exact Hfp|]. split; [exact Hcmd|].
  split; [|split].
  - apply flash_run; try assumption.
    + unfold Int.in_range, Int.INT_MIN. lia.
    + exact (active_not_completed _ _ Hact).
  - intros Hpos. apply flash_ticks_formula; assumption.
  - intros ->. unfold flash_ticks, flash_period.
    change (phase 0) with 1%nat. lia.
Qed.

Lemma flash_explicit_completes_after_exact_ticks_witness :
  exists (w_explicit w_macros : world) (t_macros : nat),
    completes_after (command_flash_explicit HAL_GPIO_WritePin max_delay_explicit)
      (boot "flash 3" cmd_flash)
      (Z.to_nat (3 * (2 * max_delay_explicit + 5) + 2)) w_explicit /\
    flash_vars w_explicit = fvars 0 0 0 /\
    shell_fp w_explicit = shell_state_output /\
    command_fp (shell_state w_explicit) = None /\
    completes_after (command_flash max_delay_explicit)
      (boot "flash 3" cmd_flash) t_macros w_macros /\
    (0 < max_delay_explicit ->
     Z.of_nat t_macros = 3 * (2 * max_delay_explicit + 3) + 2) /\
    (max_delay_explicit = 0 -> Z.of_nat t_macros = 5 * 3 + 2).
Proof.
  apply (flash_explicit_completes_after_exact_ticks
           HAL_GPIO_WritePin max_delay_explicit).
  - intros s w. split; reflexivity.
  - unfold max_delay_explicit, Int.INT_MAX. lia.
  - reflexivity.
  - reflexivity.
  - reflexivity.
  - lia.
Defined.

Example flash_explicit_3_with_delay_0 :
  option_map fst
    (run (command_flash_explicit HAL_GPIO_WritePin 0) 30 (boot "flash 3" cmd_flash))
  = Some 17%nat /\
  option_map fst (run (command_flash 0) 30 (boot "flash 3" cmd_flash))
  = Some 17%nat.
Proof. split; reflexivity. Qed.

Example flash_explicit_2_with_delay_1 :
  option_map fst
    (run (command_flash_explicit HAL_GPIO_WritePin 1) 30 (boot "flash 2" cmd_flash))
  = Some 16%nat.
Proof. reflexivity. Qed.

(** ** What the command functions leave alone *)

(** No command function writes the input buffer or the flag [busy];
    [command_cnt] and [command_load] never touch the LED, [command_flash]
    and [command_led_toggle] never write the output buffer; and a command
    function changes the statics of no other command. *)
Theorem commands_leave_alone (c : command) (w : world) :
  input (shell_state (call c w)) = input (shell_state w) /\
  busy (shell_state (call c w)) = busy (shell_state w) /\
  (c = cmd_cnt \/ c = cmd_load -> led (call c w) = led w) /\
  (c = cmd_flash \/ c = cmd_led_toggle ->
   output (shell_state (call c w)) = output (shell_state w)) /\
  (c <> cmd_cnt -> cnt_vars (call c w) = cnt_vars w) /\
  (c <> cmd_load -> load_vars (call c w) = load_vars w) /\
  (c <> cmd_flash -> flash_vars (call c w) = flash_vars w).
Proof.
  destruct c; cbn [call].
  - unfold command_cnt.
    switch_cases (cnt_state (cnt_vars w));
      repeat split; intros; try reflexivity; try congruence;
      match goal with H : _ \/ _ |- _ => destruct H; discriminate end.
  - repeat split; intros; try reflexivity; try congruence;
      match goal with H : _ \/ _ |- _ => destruct H; discriminate end.
  - unfold command_load.
    switch_cases (load_state (load_vars w));
      try destruct (busy (shell_state w) =? 0);
      try destruct (load_cnt (load_vars w) =? 500);
      repeat split; intros; try reflexivity; try congruence;
      match goal with H : _ \/ _ |- _ => destruct H; discriminate end.
  - unfold command_flash.
    switch_cases (flash_state (flash_vars w));
      try destruct (Libc.sscanf_flash _ _) as [rv arg];
      repeat split; intros; try reflexivity; try congruence;
      match goal with H : _ \/ _ |- _ => destruct H; discriminate end.
Qed.

(** ** Walking the command blocks *)

(** an entry that is a leaf or a submenu, and not both *)
Definition leaf_or_submenu (e : t_shell_block_entry) : Prop :=
  (select e <> None /\ descend e = None) \/
  (select e = None /\ descend e <> None).

(** In every block, index 0 is the title, every index from 1 to the count
    of the title is an entry of the array that is a leaf or a submenu and no
    title, and every index past the count is outside the array: a walk over
    [1 .. count] meets each entry once and never reads out of bounds. *)
Theorem count_bounds_the_entries (p : block_ptr) (n : Z) :
  entry_count (deref p) = Some n ->
  (exists t, child (deref p) 0 = Some t /\ is_title t = true) /\
  (forall i : nat,
     (1 <= i <= Z.to_nat n)%nat ->
     exists e,
       child (deref p) i = Some e /\ is_title e = false /\ leaf_or_submenu e) /\
  (forall i : nat, (Z.to_nat n < i)%nat -> child (deref p) i = None).
Proof.
  assert (forall l c, leaf_or_submenu (entry l (fp_command c) None)) as Hleaf
      by (intros l c; left; split; [discriminate|reflexivity]).
  assert (forall l b, leaf_or_submenu (entry l fp_null (CMD_BLOCK b))) as Hsub
      by (intros l b; right; split; [reflexivity|discriminate]).
  destruct p; cbn [deref]; intros H; injection H as <-;
    (split; [eexists; split; reflexivity|]);
    (split; intros i Hi; cbn in Hi;
     do 7 (try (destruct i as [|i]; [try lia|]));
     try lia; try reflexivity);
    eexists; (split; [reflexivity|]); (split; [reflexivity|]);
    first [apply Hleaf | apply Hsub].
Qed.

Lemma count_bounds_the_entries_witness :
  (exists t, child (deref ptr_root_block) 0 = Some t /\ is_title t = true) /\
  (forall i : nat,
     (1 <= i <= Z.to_nat 5)%nat ->
     exists e,
       child (deref ptr_root_block) i = Some e /\ is_title e = false /\
       leaf_or_submenu e) /\
  (forall i : nat, (Z.to_nat 5 < i)%nat -> child (deref ptr_root_block) i = None).
Proof.
  apply (count_bounds_the_entries ptr_root_block 5). reflexivity.
Defined.

(** [q] is the block of a submenu entry of [p] *)
Definition submenu (p q : block_ptr) : Prop :=
  exists e, In e (deref p) /\ descend e = Some q.

Lemma submenu_cases (p q : block_ptr) :
  submenu p q <->
  (p = ptr_root_block /\ q = ptr_level_1_block) \/
  (p = ptr_level_1_block /\ q = ptr_level_2_block).
Proof.
  split.
  - intros (e & Hin & Hd). destruct p; cbn in Hin;
      repeat (destruct Hin as [<- | Hin]; [cbn in Hd; try discriminate Hd|]);
      try contradiction; injection Hd as <-; auto.
  - intros [[-> ->] | [-> ->]].
    + exists (entry "sm1 - submenu example" fp_null (CMD_BLOCK ptr_level_1_block)).
      split; [cbn; auto 10|reflexivity].
    + exists (entry "sm2 - nested submenu example" fp_null
                (CMD_BLOCK ptr_level_2_block)).
      split; [cbn; auto 10|reflexivity].
Qed.

(** The blocks form a tree under [root_block]: no entry leads to the root,
    every other block is the submenu of exactly one block, going down
    through submenus always comes to an end, and each of the four command
    functions is bound to a leaf of some block. *)
Theorem blocks_form_a_tree :
  (forall p, ~ submenu p ptr_root_block) /\
  (forall q, q = ptr_root_block \/
             exists p, submenu p q /\ forall p', submenu p' q -> p' = p) /\
  well_founded (fun q p => submenu p q) /\
  (forall c, exists p e, In e (deref p) /\ select e = Some c).
Proof.
  split; [|split; [|split]].
  - intros p H. apply submenu_cases in H.
    destruct H as [[_ H] | [_ H]]; discriminate H.
  - intros []; [right; exists ptr_level_1_block
               | right; exists ptr_root_block
               | left; reflexivity];
      (split; [apply submenu_cases; auto|]);
      intros p' H; apply submenu_cases in H;
      destruct H as [[-> H] | [-> H]]; try discriminate H; reflexivity.
  - assert (Acc (fun q p => submenu p q) ptr_level_2_block) as A2.
    { constructor. intros q H. apply submenu_cases in H.
      destruct H as [[H _] | [H _]]; discriminate H. }
    assert (Acc (fun q p => submenu p q) ptr_level_1_block) as A1.
    { constructor. intros q H. apply submenu_cases in H.
      destruct H as [[H _] | [_ ->]]; [discriminate H|exact A2]. }
    intros []; [exact A2 | exact A1 |].
    constructor. intros q H. apply submenu_cases in H.
    destruct H as [[_ ->] | [H _]]; [exact A1|discriminate H].
  - intros []; exists ptr_root_block.
    + exists (entry "cnt - displays its own call count" (fp_command cmd_cnt) None).
      split; [cbn; auto 10|reflexivity].
    + exists (entry "led - toggles the blue LED" (fp_command cmd_led_toggle) None).
      split; [cbn; auto 10|reflexivity].
    + exists (entry "load - performance test" (fp_command cmd_load) None).
      split; [cbn; auto 10|reflexivity].
    + exists (entry "flash N - flash the LED 'N' times" (fp_command cmd_flash) None).
      split; [cbn; auto 10|reflexivity].
Qed.
